(** * poly-kalshi-arb: market matching and arbitrage detection

    A shallow embedding of the matching and arbitrage core of the
    repository (src/models, src/arbitrage, src/matching) together with the
    properties its specification states about it.

    Conventions of the embedding.
    - The code is read twice.  In the first reading Python [float]
      prices, sizes and scores are exact rationals [Q]: the arithmetic of
      the source is kept operation by operation, without rounding,
      infinity or NaN.  What is stated on this reading compares stored
      values or follows from the order in which the code acts, and does
      not depend on how a sum, a difference or a product rounds.
    - Where a property depends on rounding, on NaN or on an infinity, the
      same code is read on IEEE 754 binary64 numbers (modules [Binary64]
      and [Floating]), whose operations compute: the cents of the fee,
      the conservation of quantities and the termination of the walk are
      settled there.  Python [int] is [Z].
    - A Python [list] indexed and updated in place is a Rocq list with
      stdpp's lookup [l !! i] and insert [<[i:=x]> l]; a [dict] keyed by
      market id is a [gmap string _]; a [set] of indices is a [gset nat].
    - A call that can raise returns an [outcome]; functions whose body
      cannot raise are plain total functions. *)

From Stdlib Require Import QArith Qround Lqa Ascii.
From Stdlib Require Import Sorting.Sorted Sorting.Permutation.
From Stdlib Require SpecFloat.
From stdpp Require Import gmap strings list sorting.

(** ** Numbers *)

Module PyNum.

Local Open Scope Q_scope.

(** [a < b] on floats, as a boolean. *)
Definition Qltb (a b : Q) : bool := negb (Qle_bool b a).

(** Python's builtin [min(a, b)]: the first argument unless the second is
    strictly smaller. *)
Definition py_min (a b : Q) : Q := if Qltb b a then b else a.

(** [math.ceil]. *)
Definition math_ceil (x : Q) : Z := Qceiling x.

(** [sorted(l, key=key, reverse=True)] and [l.sort(key=key, reverse=True)]:
    a stable sort into descending key order.  [insert_desc x l] puts [x]
    in front of the first element whose key is not greater than that of
    [x], so equal keys keep their original order. *)
Fixpoint insert_desc {A : Type} (key : A -> Q) (x : A) (l : list A) : list A :=
  match l with
  | [] => [x]
  | y :: l' =>
      if Qltb (key x) (key y) then y :: insert_desc key x l' else x :: y :: l'
  end.

Definition sorted_desc {A : Type} (key : A -> Q) (l : list A) : list A :=
  foldr (insert_desc key) [] l.

End PyNum.
Export PyNum.

(** ** src/models/market.py *)

Inductive Platform : Type := KALSHI | POLYMARKET.

#[global] Instance Platform_eq_dec : EqDecision Platform.
Proof. solve_decision. Defined.

(** The fields of [UnifiedMarket] that the core reads.  The token ids, the
    close time, the quoted asks and [raw_data] are carried by the source
    record but never read by the matcher or the calculator. *)
Record UnifiedMarket : Type := {
  platform : Platform;
  market_id : string;
  title : string
}.

(** [UnifiedMarket.__eq__] and [__hash__]: identity is the platform and
    the market id. *)
Definition market_key (m : UnifiedMarket) : Platform * string :=
  (platform m, market_id m).

(** ** src/models/orderbook.py *)

Record OrderbookLevel : Type := {
  price : Q;
  size : Q
}.

(** ([ob_market_id] is the field [market_id]; the name without prefix is
    taken by [UnifiedMarket].) *)
Record Orderbook : Type := {
  ob_market_id : string;
  yes_bids : list OrderbookLevel;
  yes_asks : list OrderbookLevel;
  no_bids : list OrderbookLevel;
  no_asks : list OrderbookLevel
}.

(** ** src/models/arbitrage.py *)

Record ArbitrageLevel : Type := {
  buy_yes_platform : Platform;
  buy_yes_price : Q;
  buy_no_platform : Platform;
  buy_no_price : Q;
  quantity : Q;
  total_cost : Q;
  profit_percentage : Q;
  max_profit_dollars : Q
}.

(** (The fields carry the prefix [opp_]: their names without it are taken
    by [MarketPair] and by the state of the walk.) *)
Record ArbitrageOpportunity : Type := {
  opp_kalshi_market : UnifiedMarket;
  opp_poly_market : UnifiedMarket;
  opp_match_score : Q;
  opp_levels : list ArbitrageLevel
}.

(** [ArbitrageOpportunity.best_profit_percentage]. *)
Definition best_profit_percentage (o : ArbitrageOpportunity) : Q :=
  match opp_levels o with
  | lvl :: _ => profit_percentage lvl
  | [] => 0%Q
  end.

(** [ArbitrageOpportunity.is_profitable]. *)
Definition is_profitable (o : ArbitrageOpportunity) : bool :=
  Nat.ltb 0 (length (opp_levels o)).

(** ** Outcome of a call *)

(** The exceptions of interest: the two that list and array indexing of
    the source can raise, the [OverflowError] of a number that does not
    fit a float, and the [InvalidInput] condition that the specification
    names. *)
Inductive exn : Type := IndexError | ValueError | OverflowError | InvalidInput.

Inductive outcome (A : Type) : Type :=
| Returned (v : A)
| Raised (e : exn).
Arguments Returned {A} v.
Arguments Raised {A} e.

#[global] Instance outcome_ret : MRet outcome := fun A v => Returned v.

#[global] Instance outcome_bind : MBind outcome := fun A B k m =>
  match m with
  | Returned v => k v
  | Raised e => Raised e
  end.

(** [l[i]] for a non-negative index. *)
Definition py_getitem {A : Type} (l : list A) (i : nat) : outcome A :=
  match l !! i with
  | Some x => Returned x
  | None => Raised IndexError
  end.

(** ** src/arbitrage/fee_calculator.py *)

Module FeeCalculator.

Local Open Scope Q_scope.

Definition KALSHI_TAKER_COEFFICIENT : Q := 7 # 100.
Definition POLY_TAKER_RATE : Q := 0.

(** [kalshi_taker_fee(contracts, price)] with exact products: the sign
    and the monotonicity of the fee are read off it; the cents that the
    rounded products give are those of
    [Floating.FeeCalculator.kalshi_taker_fee]. *)
Definition kalshi_taker_fee (contracts : Z) (price : Q) : Q :=
  let fee_cents :=
    math_ceil (KALSHI_TAKER_COEFFICIENT * inject_Z contracts * price * (1 - price) * 100) in
  inject_Z fee_cents / 100.

(** [polymarket_taker_fee(contracts, price)]. *)
Definition polymarket_taker_fee (contracts : Z) (price : Q) : Q :=
  inject_Z contracts * price * POLY_TAKER_RATE.

(** [estimate_total_fees]: the pair (kalshi_fee, poly_fee). *)
Definition estimate_total_fees (buy_yes_platform : Platform) (buy_yes_price : Q)
    (buy_no_platform : Platform) (buy_no_price : Q) (contracts : Z) : Q * Q :=
  let kalshi_fee := 0 in
  let poly_fee := 0 in
  let '(kalshi_fee, poly_fee) :=
    if decide (buy_yes_platform = KALSHI)
    then (kalshi_fee + kalshi_taker_fee contracts buy_yes_price, poly_fee)
    else (kalshi_fee, poly_fee + polymarket_taker_fee contracts buy_yes_price) in
  let '(kalshi_fee, poly_fee) :=
    if decide (buy_no_platform = KALSHI)
    then (kalshi_fee + kalshi_taker_fee contracts buy_no_price, poly_fee)
    else (kalshi_fee, poly_fee + polymarket_taker_fee contracts buy_no_price) in
  (kalshi_fee, poly_fee).

(** The fee formula as the specification words it:
    ceil(k * contracts * price * (1 - price) * 100) / 100. *)
Definition reference_fee (k : Q) (contracts : Z) (price : Q) : Q :=
  inject_Z (Qceiling (k * inject_Z contracts * price * (1 - price) * 100)) / 100.

End FeeCalculator.

(** ** src/matching/fuzzy_matcher.py: the pair record *)

Record MarketPair : Type := {
  kalshi_market : UnifiedMarket;
  poly_market : UnifiedMarket;
  match_score : Q
}.

(** ** src/arbitrage/calculator.py *)

Module ArbitrageCalculator.

Local Open Scope Q_scope.

Record t : Type := { min_profit_threshold : Q }.

(** The local variables of [_walk_orderbook] that live across loop
    iterations.  [yes_remaining] and [no_remaining] are the lists of
    (price, remaining quantity) tuples that the loop updates in place. *)
Record walk_state : Type := {
  levels : list ArbitrageLevel;
  yes_remaining : list (Q * Q);
  no_remaining : list (Q * Q);
  yes_idx : nat;
  no_idx : nat
}.

(** The part of each ladder that the loop has not passed yet: the current
    head with what remains of its quantity, and the levels behind it. *)
Definition yes_rest (st : walk_state) : list (Q * Q) :=
  drop (yes_idx st) (yes_remaining st).
Definition no_rest (st : walk_state) : list (Q * Q) :=
  drop (no_idx st) (no_remaining st).

(** [remaining[idx][1] <= 0], read after the in-place update. *)
Definition exhausted (remaining : list (Q * Q)) (idx : nat) : bool :=
  match remaining !! idx with
  | Some (_, qty) => Qle_bool qty 0
  | None => false
  end.

Section Walk.

Variable self : t.
Variables yes_platform no_platform : Platform.

(** The state on entry to the [while] loop. *)
Definition walk_init (yes_asks no_asks : list OrderbookLevel) : walk_state :=
  {| levels := [];
     yes_remaining := map (fun lvl => (price lvl, size lvl)) yes_asks;
     no_remaining := map (fun lvl => (price lvl, size lvl)) no_asks;
     yes_idx := 0;
     no_idx := 0 |}.

(** One pass through the loop: [None] when the loop is left, either
    because the guard [yes_idx < len(yes_remaining) and
    no_idx < len(no_remaining)] fails or because of the [break];
    otherwise the state at the end of the body. *)
Definition walk_iter (st : walk_state) : option walk_state :=
  match yes_remaining st !! yes_idx st, no_remaining st !! no_idx st with
  | Some (yes_price, yes_qty), Some (no_price, no_qty) =>
      let total_cost := yes_price + no_price in
      let gross_profit_pct := 1 - total_cost in
      if Qltb gross_profit_pct (min_profit_threshold self) then None
      else
        let qty := py_min yes_qty no_qty in
        let st1 :=
          if Qltb 0 qty then
            let max_profit_dollars := qty * gross_profit_pct in
            {| levels := levels st ++
                 [ {| buy_yes_platform := yes_platform;
                      buy_yes_price := yes_price;
                      buy_no_platform := no_platform;
                      buy_no_price := no_price;
                      quantity := qty;
                      total_cost := total_cost;
                      profit_percentage := gross_profit_pct;
                      max_profit_dollars := max_profit_dollars |} ];
               yes_remaining :=
                 <[yes_idx st := (yes_price, yes_qty - qty)]> (yes_remaining st);
               no_remaining :=
                 <[no_idx st := (no_price, no_qty - qty)]> (no_remaining st);
               yes_idx := yes_idx st;
               no_idx := no_idx st |}
          else st in
        let yes_idx' :=
          if exhausted (yes_remaining st1) (yes_idx st1)
          then S (yes_idx st1) else yes_idx st1 in
        let no_idx' :=
          if exhausted (no_remaining st1) (no_idx st1)
          then S (no_idx st1) else no_idx st1 in
        Some {| levels := levels st1;
                yes_remaining := yes_remaining st1;
                no_remaining := no_remaining st1;
                yes_idx := yes_idx';
                no_idx := no_idx' |}
  | _, _ => None
  end.

(** The level that a pass appends when it takes [qty] contracts at the
    head prices [yes_price] and [no_price]. *)
Definition emitted_level (yes_price no_price qty : Q) : ArbitrageLevel :=
  {| buy_yes_platform := yes_platform;
     buy_yes_price := yes_price;
     buy_no_platform := no_platform;
     buy_no_price := no_price;
     quantity := qty;
     total_cost := yes_price + no_price;
     profit_percentage := 1 - (yes_price + no_price);
     max_profit_dollars := qty * (1 - (yes_price + no_price)) |}.

(** Ascending by price: a ladder as the clients deliver it, and the part
    of a ladder not yet passed. *)
Definition sorted_by_price (asks : list OrderbookLevel) : Prop :=
  StronglySorted (fun a b => price a <= price b) asks.
Definition ascending (rest : list (Q * Q)) : Prop :=
  StronglySorted (fun a b => a.1 <= b.1) rest.

(** Descending by profit: the order of the emitted levels. *)
Definition profit_descending (lv : list ArbitrageLevel) : Prop :=
  StronglySorted (fun a b => profit_percentage b <= profit_percentage a) lv.

(** The loop, run for at most [fuel] passes. *)
Fixpoint walk_loop (fuel : nat) (st : walk_state) : walk_state :=
  match fuel with
  | O => st
  | S fuel' =>
      match walk_iter st with
      | Some st' => walk_loop fuel' st'
      | None => st
      end
  end.

(** [n] passes through the loop lead from one state to another. *)
Inductive passes : nat -> walk_state -> walk_state -> Prop :=
| passes_O st : passes 0 st st
| passes_S n st st' st'' :
    walk_iter st = Some st' -> passes n st' st'' -> passes (S n) st st''.

(** [_walk_orderbook(yes_asks, no_asks, yes_platform, no_platform)].
    On exact sizes each pass moves at least one of the two indices
    forward, so [len(yes_asks) + len(no_asks)] passes are enough (lemma
    [walk_loop_halts] below); on floats that holds for finite sizes only,
    see [Floating.ArbitrageCalculator._walk_orderbook]. *)
Definition _walk_orderbook (yes_asks no_asks : list OrderbookLevel)
    : list ArbitrageLevel :=
  levels (walk_loop (length yes_asks + length no_asks)
            (walk_init yes_asks no_asks)).

(** The head combination of a state is below the threshold: the
    condition of the [break]. *)
Definition below_threshold (st : walk_state) : Prop :=
  exists yes_price yes_qty no_price no_qty,
    yes_remaining st !! yes_idx st = Some (yes_price, yes_qty) /\
    no_remaining st !! no_idx st = Some (no_price, no_qty) /\
    1 - (yes_price + no_price) < min_profit_threshold self.

(** What holds of the state between passes when the ladders are sorted:
    the ladders stay ascending, the levels emitted so far are at or above
    the threshold and in descending order of profit, and no combination
    still ahead is more profitable than a level already emitted. *)
Definition walk_invariant (st : walk_state) : Prop :=
  ascending (yes_rest st) /\
  ascending (no_rest st) /\
  Forall (fun l => min_profit_threshold self <= profit_percentage l) (levels st) /\
  profit_descending (levels st) /\
  (forall l y n,
     l ∈ levels st -> y ∈ yes_rest st -> n ∈ no_rest st ->
     1 - (y.1 + n.1) <= profit_percentage l).

End Walk.

(** [calculate_opportunity(pair, kalshi_orderbook, poly_orderbook)]. *)
Definition calculate_opportunity (self : t) (pair : MarketPair)
    (kalshi_orderbook poly_orderbook : Orderbook) : option ArbitrageOpportunity :=
  let levels_1 :=
    _walk_orderbook self KALSHI POLYMARKET
      (yes_asks kalshi_orderbook) (no_asks poly_orderbook) in
  let levels_2 :=
    _walk_orderbook self POLYMARKET KALSHI
      (yes_asks poly_orderbook) (no_asks kalshi_orderbook) in
  let all_levels := sorted_desc profit_percentage (levels_1 ++ levels_2) in
  match all_levels with
  | [] => None
  | _ :: _ =>
      Some {| opp_kalshi_market := kalshi_market pair;
              opp_poly_market := poly_market pair;
              opp_match_score := match_score pair;
              opp_levels := all_levels |}
  end.

(** The body of the [for] loop of [find_all_opportunities]: the
    opportunity appended for one pair, if any.  [dict.get] is the map
    lookup; an [Orderbook] and an [ArbitrageOpportunity] are truthy
    whenever they are not [None]. *)
Definition opportunity_of_pair (self : t)
    (kalshi_orderbooks poly_orderbooks : gmap string Orderbook)
    (pair : MarketPair) : option ArbitrageOpportunity :=
  let kalshi_book := kalshi_orderbooks !! market_id (kalshi_market pair) in
  let poly_book := poly_orderbooks !! market_id (poly_market pair) in
  match kalshi_book, poly_book with
  | Some kalshi_book, Some poly_book =>
      calculate_opportunity self pair kalshi_book poly_book
  | _, _ => None
  end.

(** [find_all_opportunities(pairs, kalshi_orderbooks, poly_orderbooks)]. *)
Definition find_all_opportunities (self : t) (pairs : list MarketPair)
    (kalshi_orderbooks poly_orderbooks : gmap string Orderbook)
    : list ArbitrageOpportunity :=
  let opportunities :=
    foldl (fun opportunities pair =>
             match opportunity_of_pair self kalshi_orderbooks poly_orderbooks pair with
             | Some opp => opportunities ++ [opp]
             | None => opportunities
             end) [] pairs in
  sorted_desc best_profit_percentage opportunities.

End ArbitrageCalculator.


(** ** Library interfaces used by the matcher *)

(** The string operations of the Python standard library that
    [UnifiedMarket.normalized_title] calls. *)
Class PyStr : Type := {
  str_lower : string -> string;                    (* s.lower() *)
  re_sub : string -> string -> string -> string;   (* re.sub(pattern, repl, s) *)
  str_split : string -> list string;               (* s.split() *)
  str_join : string -> list string -> string       (* sep.join(parts) *)
}.

(** [rapidfuzz.fuzz.token_sort_ratio] as the matrix of [cdist] holds it:
    a score between 0 and 100, rounded to the float32 of the matrix. *)
Class RapidFuzz : Type := {
  token_sort_ratio : string -> string -> Q
}.

(** [numpy.argsort] on a one-dimensional array.  Its default sort is not
    stable, so the order it gives to equal values is left open. *)
Class Numpy : Type := {
  argsort : list Q -> list nat
}.

(** What numpy promises of [argsort]: the indices of the array, each once,
    in ascending order of the values they point to. *)
Definition is_argsort (a : list Q) (idx : list nat) : Prop :=
  Permutation idx (seq 0 (length a)) /\
  forall p q i j x y,
    (p <= q)%nat -> idx !! p = Some i -> idx !! q = Some j ->
    a !! i = Some x -> a !! j = Some y -> (x <= y)%Q.

Definition argsort_spec `{Numpy} : Prop :=
  forall a : list Q, is_argsort a (argsort a).

(** ** src/models/market.py: the normalised title *)

(** [UnifiedMarket.normalized_title]. *)
Definition normalized_title `{PyStr} (m : UnifiedMarket) : string :=
  let title := str_lower (title m) in
  let title := re_sub "[^\w\s]" " " title in
  let title := str_join " " (str_split title) in
  title.

(** ** src/matching/fuzzy_matcher.py *)

Module FuzzyMatcher.

Record t : Type := { threshold : Z }.

(** [rapidfuzz.process.cdist(queries, choices, scorer=...)]: the matrix of
    the scores of every query against every choice.  (The conversion of
    each score to float32 is part of [scorer] here.) *)
Definition cdist (scorer : string -> string -> Q) (queries choices : list string)
    : list (list Q) :=
  map (fun q => map (fun c => scorer q c) choices) queries.

(** [numpy.argmax] and [numpy.max] along a row: the first position of the
    greatest value, and that value.  [argmax_from bi b i l] scans [l],
    whose first element has index [i], with [b] at index [bi] the best so
    far. *)
Fixpoint argmax_from (best_idx : nat) (best : Q) (i : nat) (l : list Q) : nat * Q :=
  match l with
  | [] => (best_idx, best)
  | x :: l' =>
      if Qltb best x then argmax_from i x (S i) l'
      else argmax_from best_idx best (S i) l'
  end.

Definition np_argmax (row : list Q) : outcome nat :=
  match row with
  | [] => Raised ValueError
  | x :: l => Returned (fst (argmax_from 0 x 1 l))
  end.

Definition np_max (row : list Q) : outcome Q :=
  match row with
  | [] => Raised ValueError
  | x :: l => Returned (snd (argmax_from 0 x 1 l))
  end.

(** A function applied along [axis=1], row by row. *)
Fixpoint along_rows {A : Type} (f : list Q -> outcome A) (rows : list (list Q))
    : outcome (list A) :=
  match rows with
  | [] => Returned []
  | r :: rows' =>
      v ← f r;
      vs ← along_rows f rows';
      mret (v :: vs)
  end.

(** The pair [p] was built from the markets at positions [ij.1] of the
    Kalshi list and [ij.2] of the Polymarket list. *)
Definition pair_of_indices (kalshi_markets poly_markets : list UnifiedMarket)
    (ij : nat * nat) (p : MarketPair) : Prop :=
  kalshi_markets !! ij.1 = Some (kalshi_market p) /\
  poly_markets !! ij.2 = Some (poly_market p).

(** The variables that the [for] loop of [find_matches] updates. *)
Record loop_state : Type := {
  matches : list MarketPair;
  matched_poly_indices : gset nat
}.

Section Matcher.

Context `{PyStr} `{RapidFuzz} `{Numpy}.

Variable self : t.

(** The body of the [for] loop, for one [kalshi_idx]. *)
Definition match_step (kalshi_markets poly_markets : list UnifiedMarket)
    (best_poly_indices : list nat) (best_scores : list Q)
    (st : loop_state) (kalshi_idx : nat) : outcome loop_state :=
  poly_idx ← py_getitem best_poly_indices kalshi_idx;
  score ← py_getitem best_scores kalshi_idx;
  if Qle_bool (inject_Z (threshold self)) score
     && negb (bool_decide (poly_idx ∈ matched_poly_indices st))
  then
    kalshi_market ← py_getitem kalshi_markets kalshi_idx;
    poly_market ← py_getitem poly_markets poly_idx;
    mret {| matches := matches st ++
              [ {| kalshi_market := kalshi_market;
                   poly_market := poly_market;
                   match_score := score |} ];
            matched_poly_indices := matched_poly_indices st ∪ {[ poly_idx ]} |}
  else mret st.

(** The [for] loop over a list of indices. *)
Fixpoint match_loop (kalshi_markets poly_markets : list UnifiedMarket)
    (best_poly_indices : list nat) (best_scores : list Q)
    (st : loop_state) (indices : list nat) : outcome loop_state :=
  match indices with
  | [] => Returned st
  | kalshi_idx :: indices' =>
      st' ← match_step kalshi_markets poly_markets best_poly_indices best_scores
              st kalshi_idx;
      match_loop kalshi_markets poly_markets best_poly_indices best_scores
        st' indices'
  end.

(** The row of the score matrix for one Kalshi market. *)
Definition score_row (m : UnifiedMarket) (poly_markets : list UnifiedMarket) : list Q :=
  map (fun c => token_sort_ratio (normalized_title m) c)
      (map normalized_title poly_markets).

(** The body of [find_matches] after the test for empty inputs. *)
Definition match_markets (kalshi_markets poly_markets : list UnifiedMarket)
    : outcome (list MarketPair) :=
  let kalshi_titles := map normalized_title kalshi_markets in
  let poly_titles := map normalized_title poly_markets in
  let scores := cdist token_sort_ratio kalshi_titles poly_titles in
  best_poly_indices ← along_rows np_argmax scores;
  best_scores ← along_rows np_max scores;
  let sorted_indices := rev (argsort best_scores) in
  st ← match_loop kalshi_markets poly_markets best_poly_indices best_scores
         {| matches := []; matched_poly_indices := ∅ |} sorted_indices;
  mret (matches st).

(** [find_matches(kalshi_markets, poly_markets)]. *)
Definition find_matches (kalshi_markets poly_markets : list UnifiedMarket)
    : outcome (list MarketPair) :=
  match kalshi_markets, poly_markets with
  | [], _ | _, [] => Returned []
  | _ :: _, _ :: _ => match_markets kalshi_markets poly_markets
  end.

End Matcher.

End FuzzyMatcher.


(** ** Instances of the library interfaces for the examples *)

Module Examples.

(** ASCII strings: [lower], the substitution of [normalized_title] (every
    character that is neither a word character nor white space becomes the
    replacement), [split] on runs of white space and [join]. *)
Definition is_upper (c : ascii) : bool :=
  let n := nat_of_ascii c in (65 <=? n)%nat && (n <=? 90)%nat.
Definition is_space (c : ascii) : bool :=
  let n := nat_of_ascii c in
  ((9 <=? n)%nat && (n <=? 13)%nat) || ((28 <=? n)%nat && (n <=? 32)%nat).
Definition is_word (c : ascii) : bool :=
  let n := nat_of_ascii c in
  ((48 <=? n)%nat && (n <=? 57)%nat) || ((65 <=? n)%nat && (n <=? 90)%nat)
  || ((97 <=? n)%nat && (n <=? 122)%nat) || (n =? 95)%nat.

Definition lower_char (c : ascii) : ascii :=
  if is_upper c then ascii_of_nat (nat_of_ascii c + 32) else c.

Fixpoint map_chars (f : ascii -> ascii) (s : string) : string :=
  match s with
  | EmptyString => EmptyString
  | String c s' => String (f c) (map_chars f s')
  end.

Fixpoint subst_chars (keep : ascii -> bool) (repl : string) (s : string) : string :=
  match s with
  | EmptyString => EmptyString
  | String c s' =>
      if keep c then String c (subst_chars keep repl s')
      else (repl +:+ subst_chars keep repl s')%string
  end.

(** [words cur s]: the words of [s], with [cur] the word being read, last
    character first. *)
Fixpoint words (cur : list ascii) (s : string) : list string :=
  match s with
  | EmptyString =>
      match cur with [] => [] | _ => [String.string_of_list_ascii (rev cur)] end
  | String c s' =>
      if is_space c then
        match cur with
        | [] => words [] s'
        | _ => String.string_of_list_ascii (rev cur) :: words [] s'
        end
      else words (c :: cur) s'
  end.

Fixpoint join (sep : string) (parts : list string) : string :=
  match parts with
  | [] => EmptyString
  | [w] => w
  | w :: parts' => (w +:+ sep +:+ join sep parts')%string
  end.

#[export] Instance ascii_str : PyStr := {|
  str_lower := map_chars lower_char;
  re_sub := fun pattern repl s =>
    if decide (pattern = "[^\w\s]")
    then subst_chars (fun c => is_word c || is_space c) repl s
    else s;
  str_split := words [];
  str_join := join
|}.

(** A scorer given by a table of scores, 0 where the table is silent. *)
Fixpoint table_score (table : list (string * string * Q)) (a b : string) : Q :=
  match table with
  | [] => 0%Q
  | (a', b', v) :: table' =>
      if decide (a = a' /\ b = b') then v else table_score table' a b
  end.

(** An [argsort] by stable insertion, ascending. *)
Fixpoint insert_asc (key : nat -> Q) (i : nat) (l : list nat) : list nat :=
  match l with
  | [] => [i]
  | j :: l' =>
      if Qltb (key j) (key i) then j :: insert_asc key i l' else i :: j :: l'
  end.

Definition stable_argsort (a : list Q) : list nat :=
  foldr (insert_asc (fun i => nth i a 0%Q)) [] (seq 0 (length a)).

#[export] Instance stable_numpy : Numpy := {| argsort := stable_argsort |}.

End Examples.

(** ** Inputs of the scenarios *)

Module Scenarios.

Local Open Scope Q_scope.

Definition level (p s : Q) : OrderbookLevel := {| price := p; size := s |}.

(** The calculator with the default threshold of 2%. *)
Definition calculator : ArbitrageCalculator.t :=
  {| ArbitrageCalculator.min_profit_threshold := 0.02 |}.

(** Scenario B of the specification. *)
Definition scenario_B_yes : list OrderbookLevel := [level 0.48 20; level 0.50 30].
Definition scenario_B_no : list OrderbookLevel := [level 0.50 40].

(** The matcher with the default threshold of 80. *)
Definition matcher : FuzzyMatcher.t := {| FuzzyMatcher.threshold := 80 |}.

Definition market (p : Platform) (id title : string) : UnifiedMarket :=
  {| platform := p; market_id := id; title := title |}.

(** Scenario D of the specification: both Kalshi markets score best
    against the first Polymarket market, with 90 and 85; the second Kalshi
    market scores 81 against the other Polymarket market. *)
Definition scenario_D_kalshi : list UnifiedMarket :=
  [ market KALSHI "K1" "Fed cuts rates in March?";
    market KALSHI "K2" "Fed cuts rates by March?" ].
Definition scenario_D_poly : list UnifiedMarket :=
  [ market POLYMARKET "P1" "Fed rate cut - March";
    market POLYMARKET "P2" "Fed cut by March" ].

#[export] Instance scenario_D_scores : RapidFuzz := {|
  token_sort_ratio := Examples.table_score
    [ ("fed cuts rates in march", "fed rate cut march", 90);
      ("fed cuts rates in march", "fed cut by march", 70);
      ("fed cuts rates by march", "fed rate cut march", 85);
      ("fed cuts rates by march", "fed cut by march", 81) ]
|}.

(** Two entries of the Polymarket list with one market id, the empty
    string that the Polymarket client gives a market without
    [conditionId]; each has the title of one Kalshi market, and equal
    titles score 100. *)
Definition duplicate_kalshi : list UnifiedMarket :=
  [ market KALSHI "K1" "Will the Fed cut rates in March?";
    market KALSHI "K2" "Will Bitcoin close above 100k in 2025?" ].
Definition duplicate_poly : list UnifiedMarket :=
  [ market POLYMARKET "" "Will the Fed cut rates in March?";
    market POLYMARKET "" "Will Bitcoin close above 100k in 2025?" ].

Definition duplicate_scores : RapidFuzz := {|
  token_sort_ratio := Examples.table_score
    [ ("will the fed cut rates in march", "will the fed cut rates in march", 100);
      ("will bitcoin close above 100k in 2025",
       "will bitcoin close above 100k in 2025", 100) ]
|}.

End Scenarios.

(** ** Further code of the repository *)

(** *** src/models/arbitrage.py: the best level *)

(** [ArbitrageOpportunity.best_level]. *)
Definition best_level (o : ArbitrageOpportunity) : option ArbitrageLevel :=
  match opp_levels o with
  | lvl :: _ => Some lvl
  | [] => None
  end.

(** *** src/models/orderbook.py: the best prices *)

(** [Orderbook.best_yes_bid] and its three siblings: the price of the
    first level of the side, [None] for an empty side. *)
Definition first_price (side : list OrderbookLevel) : option Q :=
  match side with
  | lvl :: _ => Some (price lvl)
  | [] => None
  end.

Definition best_yes_bid (b : Orderbook) : option Q := first_price (yes_bids b).
Definition best_yes_ask (b : Orderbook) : option Q := first_price (yes_asks b).
Definition best_no_bid (b : Orderbook) : option Q := first_price (no_bids b).
Definition best_no_ask (b : Orderbook) : option Q := first_price (no_asks b).

(** *** src/matching/fuzzy_matcher.py: [MarketPair.pair_id] *)

Definition pair_id (p : MarketPair) : string :=
  (market_id (kalshi_market p) +:+ ":" +:+ market_id (poly_market p))%string.

(** *** Python's ascending sort *)

(** [l.sort(key=key)]: a stable sort into ascending key order.
    [insert_asc x l] puts [x] in front of the first element whose key is
    not smaller than that of [x]. *)
Fixpoint insert_asc {A : Type} (key : A -> Q) (x : A) (l : list A) : list A :=
  match l with
  | [] => [x]
  | y :: l' =>
      if Qltb (key y) (key x) then y :: insert_asc key x l' else x :: y :: l'
  end.

Definition sorted_asc {A : Type} (key : A -> Q) (l : list A) : list A :=
  foldr (insert_asc key) [] l.

(** *** src/clients/kalshi_client.py: the order book of a reply *)

Module KalshiClient.

Local Open Scope Q_scope.

(** An entry of the "yes" or "no" array of a reply: a JSON array of
    numbers (the API sends [price in cents, count]), or a value that is
    not an array. *)
Inductive raw_level : Type :=
| RawArray (xs : list Q)
| RawOther.

(** The decoded reply as [get_orderbook] reads it: the value under
    "orderbook" if there is one, and in it the values under "yes" and
    "no"; [None] is a missing key or a JSON null. *)
Record orderbook_data : Type := {
  yes : option (list raw_level);
  no : option (list raw_level)
}.

Record reply : Type := { orderbook : option orderbook_data }.

(** One of the two [for] loops over [orderbook_data.get(side) or []]: an
    entry that is an array of at least two elements gives a level, its
    price divided by 100; any other entry is skipped. *)
Definition bids_of (entries : list raw_level) : list OrderbookLevel :=
  foldl (fun bids level =>
           match level with
           | RawArray (level0 :: level1 :: _) =>
               bids ++ [ {| price := level0 / 100; size := level1 |} ]
           | _ => bids
           end) [] entries.

(** The asks of one side derived from the bids of the other. *)
Definition asks_of (bids : list OrderbookLevel) : list OrderbookLevel :=
  map (fun lvl => {| price := 1 - price lvl; size := size lvl |}) bids.

(** [get_orderbook(ticker)] from [data = response.json()] on: the request
    before it is outside the model. *)
Definition get_orderbook (ticker : string) (data : reply) : Orderbook :=
  let orderbook_data :=
    default {| yes := None; no := None |} (orderbook data) in
  let yes_bids := bids_of (default [] (yes orderbook_data)) in
  let no_bids := bids_of (default [] (no orderbook_data)) in
  let yes_asks := asks_of no_bids in
  let no_asks := asks_of yes_bids in
  {| ob_market_id := ticker;
     yes_bids := sorted_desc price yes_bids;
     yes_asks := sorted_asc price yes_asks;
     no_bids := sorted_desc price no_bids;
     no_asks := sorted_asc price no_asks |}.

End KalshiClient.

(** *** src/clients/polymarket_client.py: the order book of two replies *)

(** [float(s)] on a string: the number, or [None] for the [ValueError]
    of a string that is not a number.  The strings that [float] reads as
    an infinity or as not-a-number have no rational value and are not
    covered. *)
Class PyFloat : Type := {
  float_of_string : string -> option Q
}.

Module PolymarketClient.

Local Open Scope Q_scope.

(** The value under a key of an entry of "bids" or "asks": a number, a
    string, a boolean, null, or an array or object. *)
Inductive json_value : Type :=
| JNum (q : Q)
| JStr (s : string)
| JBool (b : bool)
| JNull
| JOther.

(** An entry: the values under "price" and "size", [None] for a missing
    key. *)
Record entry : Type := {
  e_price : option json_value;
  e_size : option json_value
}.

(** A book as decoded from one reply; the empty dict that an HTTP error
    leaves has neither key.  A key that is present holds an array of
    objects: a reply with a null or another value there, on which the
    loop raises, is not covered. *)
Record book : Type := {
  bids : option (list entry);
  asks : option (list entry)
}.

Section Parse.

Context `{PyFloat}.

(** [float(v)], with [None] for the [ValueError] or [TypeError] that the
    loops catch. *)
Definition py_float (v : json_value) : option Q :=
  match v with
  | JNum q => Some q
  | JStr s => float_of_string s
  | JBool b => Some (if b then 1 else 0)
  | JNull | JOther => None
  end.

(** The body of each of the four loops: [b.get("price", 0)] and
    [b.get("size", 0)] through [float]; an entry on which either raises
    is skipped. *)
Definition level_of (b : entry) : option OrderbookLevel :=
  match py_float (default (JNum 0) (e_price b)),
        py_float (default (JNum 0) (e_size b)) with
  | Some price, Some size => Some {| price := price; size := size |}
  | _, _ => None
  end.

Definition levels_of (entries : list entry) : list OrderbookLevel :=
  foldl (fun levels b =>
           match level_of b with
           | Some lvl => levels ++ [lvl]
           | None => levels
           end) [] entries.

(** [get_orderbook(market)] from the two decoded books on. *)
Definition parse_orderbook (market : UnifiedMarket) (yes_book no_book : book)
    : Orderbook :=
  let yes_bids := levels_of (default [] (bids yes_book)) in
  let yes_asks := levels_of (default [] (asks yes_book)) in
  let no_bids := levels_of (default [] (bids no_book)) in
  let no_asks := levels_of (default [] (asks no_book)) in
  {| ob_market_id := market_id market;
     yes_bids := sorted_desc price yes_bids;
     yes_asks := sorted_asc price yes_asks;
     no_bids := sorted_desc price no_bids;
     no_asks := sorted_asc price no_asks |}.

End Parse.

End PolymarketClient.

(** *** src/main.py: one polling cycle, from the fetched books on *)

Module ArbitrageBot.

(** What [asyncio.gather(..., return_exceptions=True)] holds for one pair:
    a book, the [None] that the Polymarket client returns for a market
    without tokens, or an exception. *)
Inductive fetched : Type :=
| Book (b : Orderbook)
| NoBook
| Failed.

(** The loop [for pair, result in zip(pairs, results)] that fills one of
    the two dicts; [key] is the market id of the pair on that venue. *)
Definition collect_orderbooks (key : MarketPair -> string)
    (pairs : list MarketPair) (results : list fetched) : gmap string Orderbook :=
  foldl (fun orderbooks '(this_pair, result) =>
           match result with
           | Book b => <[key this_pair := b]> orderbooks
           | NoBook | Failed => orderbooks
           end) ∅ (zip pairs results).

(** Steps 3 and 4 of [_poll_cycle], from the gathered results on. *)
Definition opportunities_of_cycle (calculator : ArbitrageCalculator.t)
    (pairs : list MarketPair) (kalshi_results poly_results : list fetched)
    : list ArbitrageOpportunity :=
  let kalshi_orderbooks :=
    collect_orderbooks (fun p => market_id (kalshi_market p)) pairs kalshi_results in
  let poly_orderbooks :=
    collect_orderbooks (fun p => market_id (poly_market p)) pairs poly_results in
  ArbitrageCalculator.find_all_opportunities calculator pairs
    kalshi_orderbooks poly_orderbooks.

End ArbitrageBot.

(** *** Statements about the levels of a walk *)

(** The level [l] was cut from the ladders [yes_asks] and [no_asks] for
    the platforms given: its two prices are those of a level of either
    ladder, its quantity is no more than the size of each of the two, and
    its cost, profit and dollar profit are computed from them. *)
Definition level_from_ladders (yes_platform no_platform : Platform)
    (yes_asks no_asks : list OrderbookLevel) (l : ArbitrageLevel) : Prop :=
  buy_yes_platform l = yes_platform /\
  buy_no_platform l = no_platform /\
  (exists y n,
     y ∈ yes_asks /\ n ∈ no_asks /\
     buy_yes_price l = price y /\ buy_no_price l = price n /\
     (quantity l <= size y)%Q /\ (quantity l <= size n)%Q) /\
  total_cost l = (buy_yes_price l + buy_no_price l)%Q /\
  profit_percentage l = (1 - total_cost l)%Q /\
  max_profit_dollars l = (quantity l * profit_percentage l)%Q.

(** A (price, remaining quantity) entry comes from a level of the ladder,
    with no more than its size left. *)
Definition rest_from_ladder (asks : list OrderbookLevel) (r : Q * Q) : Prop :=
  exists lvl, lvl ∈ asks /\ price lvl = r.1 /\ (r.2 <= size lvl)%Q.

(** *** Statements about the loop of the matcher *)

(** The pair [p] was committed for the Kalshi position [ij.1] and the
    Polymarket position [ij.2]: it holds the two markets at these
    positions, the second is the best position of the first, and the score
    is the best score of the first. *)
Definition pair_at (kalshi_markets poly_markets : list UnifiedMarket)
    (best_poly_indices : list nat) (best_scores : list Q)
    (ij : nat * nat) (p : MarketPair) : Prop :=
  kalshi_markets !! ij.1 = Some (kalshi_market p) /\
  poly_markets !! ij.2 = Some (poly_market p) /\
  best_poly_indices !! ij.1 = Some ij.2 /\
  best_scores !! ij.1 = Some (match_score p).

(** The best score at position [b] is no greater than that at [a]. *)
Definition no_better (best_scores : list Q) (a b : nat) : Prop :=
  forall sa sb,
    best_scores !! a = Some sa -> best_scores !! b = Some sb -> (sb <= sa)%Q.

(** [c in s] for a character and a string. *)
Fixpoint has_char (c : ascii) (s : string) : bool :=
  match s with
  | EmptyString => false
  | String c' s' => bool_decide (c = c') || has_char c s'
  end.

(** ** Python's [float]: IEEE 754 binary64 *)

(** Where a property depends on rounding, on NaN or on an infinity, the
    code is read on binary64 numbers, with the operations of
    [SpecFloat] (round to nearest, ties to even), which compute. *)
Module Binary64.

Definition float : Type := SpecFloat.spec_float.

Definition prec : Z := 53.
Definition emax : Z := 1024.

Definition add : float -> float -> float := SpecFloat.SFadd prec emax.
Definition sub : float -> float -> float := SpecFloat.SFsub prec emax.
Definition mul : float -> float -> float := SpecFloat.SFmul prec emax.
Definition div : float -> float -> float := SpecFloat.SFdiv prec emax.

(** [a < b] and [a <= b]: false as soon as one side is NaN. *)
Definition ltb : float -> float -> bool := SpecFloat.SFltb.
Definition leb : float -> float -> bool := SpecFloat.SFleb.

Definition zero : float := SpecFloat.S754_zero false.
Definition nan : float := SpecFloat.S754_nan.

(** The float nearest to an integer, an infinity when it is out of
    range. *)
Definition of_Z (n : Z) : float := SpecFloat.binary_normalize prec emax n 0 false.

(** The conversion of an [int] operand in mixed arithmetic:
    [OverflowError] when the integer is too large for a float. *)
Definition of_int (n : Z) : outcome float :=
  match of_Z n with
  | SpecFloat.S754_infinity _ => Raised OverflowError
  | x => Returned x
  end.

(** The literal [n/d] written in decimal, as [0.07] is 7/100: the float
    nearest to the quotient (for [n] and [d] that are floats
    themselves). *)
Definition decimal (n : Z) (d : positive) : float := div (of_Z n) (of_Z (Zpos d)).

(** Neither NaN nor an infinity. *)
Definition is_finite (x : float) : bool :=
  match x with
  | SpecFloat.S754_zero _ | SpecFloat.S754_finite _ _ _ => true
  | SpecFloat.S754_infinity _ | SpecFloat.S754_nan => false
  end.

Definition is_nan (x : float) : bool :=
  match x with
  | SpecFloat.S754_nan => true
  | _ => false
  end.

(** The rational number that a finite float is; 0 for the others. *)
Definition value (x : float) : Q :=
  match x with
  | SpecFloat.S754_finite s m e =>
      let n := if s then Zneg m else Zpos m in
      match e with
      | Z0 => inject_Z n
      | Zpos p => inject_Z (n * 2 ^ Zpos p)
      | Zneg p => Qmake n (2 ^ p)%positive
      end
  | _ => 0%Q
  end.

(** Python's builtin [min(a, b)]: the first argument unless the second is
    strictly smaller. *)
Definition py_min (a b : float) : float := if ltb b a then b else a.

(** [math.ceil(x)]: an [int]; [ValueError] on NaN and [OverflowError] on
    an infinity. *)
Definition math_ceil (x : float) : outcome Z :=
  match x with
  | SpecFloat.S754_nan => Raised ValueError
  | SpecFloat.S754_infinity _ => Raised OverflowError
  | _ => Returned (Qceiling (value x))
  end.

End Binary64.

(** ** The fee and the walk on binary64 *)

Module Floating.

Import Binary64.

(** [OrderbookLevel] and [ArbitrageLevel], their numbers floats as the
    dataclasses declare them.  (The contract counts that the Kalshi client
    stores as sizes are integers; they are floats here, which is exact
    below 2^53.) *)
Record OrderbookLevel : Type := {
  price : float;
  size : float
}.

Record ArbitrageLevel : Type := {
  buy_yes_platform : Platform;
  buy_yes_price : float;
  buy_no_platform : Platform;
  buy_no_price : float;
  quantity : float;
  total_cost : float;
  profit_percentage : float;
  max_profit_dollars : float
}.

Module FeeCalculator.

Definition KALSHI_TAKER_COEFFICIENT : float := decimal 7 100.

(** [kalshi_taker_fee(contracts, price)], operation by operation:
    [0.07 * contracts] converts the count, the product is taken from left
    to right, [1 - price] and [* 100] convert their integer, [math.ceil]
    gives an [int], and [fee_cents / 100.0] converts it back. *)
Definition kalshi_taker_fee (contracts : Z) (price : float) : outcome float :=
  c ← of_int contracts;
  fee_cents ← math_ceil
    (mul (mul (mul (mul KALSHI_TAKER_COEFFICIENT c) price)
            (sub (of_Z 1) price))
       (of_Z 100));
  n ← of_int fee_cents;
  Returned (div n (decimal 100 1)).

(** The product before [math.ceil] and the scaling to cents:
    [0.07 * contracts * price * (1 - price)]. *)
Definition unrounded_fee (contracts : Z) (price : float) : outcome float :=
  c ← of_int contracts;
  Returned (mul (mul (mul KALSHI_TAKER_COEFFICIENT c) price) (sub (of_Z 1) price)).

End FeeCalculator.

Module ArbitrageCalculator.

Record t : Type := { min_profit_threshold : float }.

Record walk_state : Type := {
  levels : list ArbitrageLevel;
  yes_remaining : list (float * float);
  no_remaining : list (float * float);
  yes_idx : nat;
  no_idx : nat
}.

Definition yes_rest (st : walk_state) : list (float * float) :=
  drop (yes_idx st) (yes_remaining st).
Definition no_rest (st : walk_state) : list (float * float) :=
  drop (no_idx st) (no_remaining st).

(** [remaining[idx][1] <= 0], read after the in-place update. *)
Definition exhausted (remaining : list (float * float)) (idx : nat) : bool :=
  match remaining !! idx with
  | Some (_, qty) => leb qty zero
  | None => false
  end.

Section Walk.

Variable self : t.
Variables yes_platform no_platform : Platform.

Definition walk_init (yes_asks no_asks : list OrderbookLevel) : walk_state :=
  {| levels := [];
     yes_remaining := map (fun lvl => (price lvl, size lvl)) yes_asks;
     no_remaining := map (fun lvl => (price lvl, size lvl)) no_asks;
     yes_idx := 0;
     no_idx := 0 |}.

(** One pass through the loop, [None] when the loop is left. *)
Definition walk_iter (st : walk_state) : option walk_state :=
  match yes_remaining st !! yes_idx st, no_remaining st !! no_idx st with
  | Some (yes_price, yes_qty), Some (no_price, no_qty) =>
      let total_cost := add yes_price no_price in
      let gross_profit_pct := sub (of_Z 1) total_cost in
      if ltb gross_profit_pct (min_profit_threshold self) then None
      else
        let qty := py_min yes_qty no_qty in
        let st1 :=
          if ltb zero qty then
            let max_profit_dollars := mul qty gross_profit_pct in
            {| levels := levels st ++
                 [ {| buy_yes_platform := yes_platform;
                      buy_yes_price := yes_price;
                      buy_no_platform := no_platform;
                      buy_no_price := no_price;
                      quantity := qty;
                      total_cost := total_cost;
                      profit_percentage := gross_profit_pct;
                      max_profit_dollars := max_profit_dollars |} ];
               yes_remaining :=
                 <[yes_idx st := (yes_price, sub yes_qty qty)]> (yes_remaining st);
               no_remaining :=
                 <[no_idx st := (no_price, sub no_qty qty)]> (no_remaining st);
               yes_idx := yes_idx st;
               no_idx := no_idx st |}
          else st in
        let yes_idx' :=
          if exhausted (yes_remaining st1) (yes_idx st1)
          then S (yes_idx st1) else yes_idx st1 in
        let no_idx' :=
          if exhausted (no_remaining st1) (no_idx st1)
          then S (no_idx st1) else no_idx st1 in
        Some {| levels := levels st1;
                yes_remaining := yes_remaining st1;
                no_remaining := no_remaining st1;
                yes_idx := yes_idx';
                no_idx := no_idx' |}
  | _, _ => None
  end.

(** The loop, run for at most [fuel] passes: the levels returned, or
    [None] when the loop has not been left after [fuel] passes. *)
Fixpoint walk_loop (fuel : nat) (st : walk_state) : option (list ArbitrageLevel) :=
  match walk_iter st with
  | None => Some (levels st)
  | Some st' =>
      match fuel with
      | O => None
      | S fuel' => walk_loop fuel' st'
      end
  end.

(** [_walk_orderbook(yes_asks, no_asks, yes_platform, no_platform)],
    watched for [fuel] passes. *)
Definition _walk_orderbook (fuel : nat) (yes_asks no_asks : list OrderbookLevel)
    : option (list ArbitrageLevel) :=
  walk_loop fuel (walk_init yes_asks no_asks).

End Walk.

End ArbitrageCalculator.

End Floating.

(** *** Statements about the sizes of a float walk *)

Module FloatingStatements.

Import Binary64 Floating Floating.ArbitrageCalculator.

(** Every remaining quantity of the part of a ladder is finite. *)
Definition finite_sizes (rest : list (float * float)) : Prop :=
  Forall (fun r => is_finite r.2 = true) rest.

(** The same but for the head, of which only a part may remain: that is
    a number. *)
Definition finite_behind_head (rest : list (float * float)) : Prop :=
  match rest with
  | [] => True
  | r :: behind => is_nan r.2 = false /\ finite_sizes behind
  end.

(** What the loop keeps of ladders with finite sizes: at most one of the
    two heads has been cut into. *)
Definition walk_sizes (st : walk_state) : Prop :=
  (finite_behind_head (yes_rest st) /\ finite_sizes (no_rest st)) \/
  (finite_sizes (yes_rest st) /\ finite_behind_head (no_rest st)).

End FloatingStatements.

(** ** Ladders and calls for the examples on binary64 *)

Module FloatScenarios.

Import Binary64 Floating.

Definition level (p s : float) : OrderbookLevel := {| price := p; size := s |}.

(** The calculator with the default threshold of 2%. *)
Definition calculator : ArbitrageCalculator.t :=
  {| ArbitrageCalculator.min_profit_threshold := decimal 2 100 |}.

(** A YES level of 1.7 contracts against NO levels of 0.6 and 1.4, all
    at a price of 0.25. *)
Definition split_yes : list OrderbookLevel :=
  [level (decimal 25 100) (decimal 17 10)].
Definition split_no : list OrderbookLevel :=
  [level (decimal 25 100) (decimal 6 10); level (decimal 25 100) (decimal 14 10)].

(** A YES level whose size is NaN, as [float] reads the string [nan],
    against a NO level of 5 contracts, both at a price of 0.3. *)
Definition nan_yes : list OrderbookLevel := [level (decimal 3 10) nan].
Definition nan_no : list OrderbookLevel := [level (decimal 3 10) (decimal 5 1)].

End FloatScenarios.

(** ** Books and replies for the examples *)

Module BookScenarios.

Import Scenarios.
Local Open Scope Q_scope.

(** A calculator with a threshold of 1%. *)
Definition loose_calculator : ArbitrageCalculator.t :=
  {| ArbitrageCalculator.min_profit_threshold := 0.01 |}.

(** A YES ladder whose second level still leaves 1% with the NO ladder
    of scenario B. *)
Definition deeper_yes : list OrderbookLevel := [level 0.48 20; level 0.49 30].

(** The two books of one pair.  Buying YES on Kalshi and NO on
    Polymarket is scenario B; the other direction costs 1.15. *)
Definition kalshi_book : Orderbook :=
  {| ob_market_id := "K1";
     yes_bids := [level 0.46 15];
     yes_asks := scenario_B_yes;
     no_bids := [level 0.38 10];
     no_asks := [level 0.60 10] |}.

Definition poly_book : Orderbook :=
  {| ob_market_id := "P1";
     yes_bids := [level 0.47 25];
     yes_asks := [level 0.55 10];
     no_bids := [level 0.44 5];
     no_asks := scenario_B_no |}.

Definition fed_pair : MarketPair :=
  {| kalshi_market := market KALSHI "K1" "Fed cuts rates in March?";
     poly_market := market POLYMARKET "P1" "Fed rate cut - March";
     match_score := 90 |}.

(** A pair whose markets have other ids. *)
Definition other_pair : MarketPair :=
  {| kalshi_market := market KALSHI "K2" "Fed cuts rates by March?";
     poly_market := market POLYMARKET "P2" "Fed cut by March";
     match_score := 81 |}.

(** [float] on the strings of the example reply. *)
Definition table_float (table : list (string * Q)) (s : string) : option Q :=
  snd <$> List.find (fun e => bool_decide (e.1 = s)) table.

#[export] Instance reply_floats : PyFloat := {|
  float_of_string := table_float [ ("0.48", 0.48); ("20", 20); ("25", 25) ]
|}.

(** A reply of the Polymarket order book endpoint whose second ask has
    no price, and a size that is not a number in its first bid. *)
Definition priceless_ask : PolymarketClient.entry :=
  {| PolymarketClient.e_price := None;
     PolymarketClient.e_size := Some (PolymarketClient.JStr "25") |}.

Definition yes_reply : PolymarketClient.book :=
  {| PolymarketClient.bids :=
       Some [ {| PolymarketClient.e_price := Some (PolymarketClient.JStr "0.48");
                 PolymarketClient.e_size := Some (PolymarketClient.JStr "many") |} ];
     PolymarketClient.asks :=
       Some [ {| PolymarketClient.e_price := Some (PolymarketClient.JStr "0.48");
                 PolymarketClient.e_size := Some (PolymarketClient.JStr "20") |};
              priceless_ask ] |}.

(** The empty dict left by a failed request. *)
Definition no_reply : PolymarketClient.book :=
  {| PolymarketClient.bids := None; PolymarketClient.asks := None |}.

End BookScenarios.

(** * Properties *)

(** ** Numbers *)

Section PyNumFacts.

Local Open Scope Q_scope.

Lemma Qltb_lt (a b : Q) : Qltb a b = true <-> a < b.
Proof.
  unfold Qltb. rewrite negb_true_iff.
  split; intros Hab.
  - destruct (Qlt_le_dec a b) as [|Hba]; [assumption|].
    apply Qle_bool_iff in Hba. congruence.
  - destruct (Qle_bool b a) eqn:E; [|reflexivity].
    apply Qle_bool_iff in E. lra.
Qed.

Lemma Qltb_ge (a b : Q) : Qltb a b = false <-> b <= a.
Proof.
  unfold Qltb. rewrite negb_false_iff. apply Qle_bool_iff.
Qed.

Lemma py_min_case (a b : Q) :
  (b < a /\ py_min a b = b) \/ (a <= b /\ py_min a b = a).
Proof.
  unfold py_min. destruct (Qltb b a) eqn:E.
  - left. split; [by apply Qltb_lt|reflexivity].
  - right. split; [by apply Qltb_ge|reflexivity].
Qed.

Lemma py_min_le_l (a b : Q) : py_min a b <= a.
Proof. destruct (py_min_case a b) as [[? ->]|[? ->]]; lra. Qed.

Lemma py_min_le_r (a b : Q) : py_min a b <= b.
Proof. destruct (py_min_case a b) as [[? ->]|[? ->]]; lra. Qed.

End PyNumFacts.

(** ** The arbitrage walk, pass by pass *)

Section WalkFacts.

Import ArbitrageCalculator.
Local Open Scope Q_scope.

Variable self : ArbitrageCalculator.t.
Variables yes_platform no_platform : Platform.

Abbreviation iter := (walk_iter self yes_platform no_platform).
Abbreviation loop := (walk_loop self yes_platform no_platform).
Abbreviation passes_to := (passes self yes_platform no_platform).
Abbreviation walk := (_walk_orderbook self yes_platform no_platform).
Abbreviation level_at := (emitted_level yes_platform no_platform).
Abbreviation threshold := (min_profit_threshold self).

(** What one pass does, told on the parts of the ladders not yet passed. *)
Lemma walk_iter_Some (st st' : walk_state) :
  iter st = Some st' ->
  exists yp yq ys np nq ns,
    yes_rest st = (yp, yq) :: ys /\
    no_rest st = (np, nq) :: ns /\
    threshold <= 1 - (yp + np) /\
    let qty := py_min yq nq in
    let emit := Qltb 0 qty in
    let yq' := if emit then yq - qty else yq in
    let nq' := if emit then nq - qty else nq in
    levels st' = levels st ++ (if emit then [level_at yp np qty] else []) /\
    yes_rest st' = (if Qle_bool yq' 0 then ys else (yp, yq') :: ys) /\
    no_rest st' = (if Qle_bool nq' 0 then ns else (np, nq') :: ns) /\
    yes_idx st' = (if Qle_bool yq' 0 then S (yes_idx st) else yes_idx st) /\
    no_idx st' = (if Qle_bool nq' 0 then S (no_idx st) else no_idx st) /\
    length (yes_remaining st') = length (yes_remaining st) /\
    length (no_remaining st') = length (no_remaining st).
Proof.
  unfold walk_iter, yes_rest, no_rest.
  destruct st as [lv yr nr yi ni]; simpl.
  destruct (yr !! yi) as [[yp yq]|] eqn:Hy; [|discriminate].
  destruct (nr !! ni) as [[np nq]|] eqn:Hn; [|discriminate].
  destruct (Qltb (1 - (yp + np)) threshold) eqn:Hth; [discriminate|].
  apply Qltb_ge in Hth.
  intros Hst'.
  exists yp, yq, (drop (S yi) yr), np, nq, (drop (S ni) nr).
  split; [by apply drop_S|]. split; [by apply drop_S|]. split; [exact Hth|].
  pose proof (lookup_lt_Some _ _ _ Hy) as Hyi.
  pose proof (lookup_lt_Some _ _ _ Hn) as Hni.
  cbv zeta.
  destruct (Qltb 0 (py_min yq nq)) eqn:Hemit; simpl in Hst'.
  - unfold exhausted in Hst'.
    rewrite !list_lookup_insert_eq in Hst' by assumption.
    injection Hst' as <-. simpl.
    split; [reflexivity|].
    split.
    { destruct (Qle_bool (yq - py_min yq nq) 0).
      - by rewrite drop_insert_lt by lia.
      - rewrite (drop_S _ (yp, yq - py_min yq nq)).
        + by rewrite drop_insert_lt by lia.
        + by apply list_lookup_insert_eq. }
    split.
    { destruct (Qle_bool (nq - py_min yq nq) 0).
      - by rewrite drop_insert_lt by lia.
      - rewrite (drop_S _ (np, nq - py_min yq nq)).
        + by rewrite drop_insert_lt by lia.
        + by apply list_lookup_insert_eq. }
    rewrite !length_insert. done.
  - unfold exhausted in Hst'. rewrite Hy, Hn in Hst'.
    injection Hst' as <-. simpl.
    split; [by rewrite app_nil_r|].
    split.
    { destruct (Qle_bool yq 0); [done|]. by apply drop_S. }
    split.
    { destruct (Qle_bool nq 0); [done|]. by apply drop_S. }
    done.
Qed.

(** When the loop is left: a ladder is used up, or the head combination is
    below the threshold. *)
Lemma walk_iter_None (st : walk_state) :
  iter st = None <->
  yes_rest st = [] \/ no_rest st = [] \/ below_threshold self st.
Proof.
  unfold walk_iter, yes_rest, no_rest, below_threshold.
  destruct st as [lv yr nr yi ni]; simpl.
  destruct (yr !! yi) as [[yp yq]|] eqn:Hy.
  - destruct (nr !! ni) as [[np nq]|] eqn:Hn.
    + rewrite (drop_S _ _ _ Hy), (drop_S _ _ _ Hn).
      destruct (Qltb (1 - (yp + np)) threshold) eqn:Hth.
      * split; [intros _|done]. right; right.
        exists yp, yq, np, nq. by apply Qltb_lt in Hth.
      * apply Qltb_ge in Hth.
        split; [done|].
        intros [?|[?|(yp' & yq' & np' & nq' & [= <- <-] & [= <- <-] & Hlt)]];
          [done|done|lra].
    + split; [intros _|done]. right; left.
      apply drop_ge. by apply lookup_ge_None.
  - split; [intros _|done]. left.
    apply drop_ge. by apply lookup_ge_None.
Qed.

(** In every pass one of the two heads is used up. *)
Lemma pass_exhausts_a_head (yq nq : Q) :
  let qty := py_min yq nq in
  let emit := Qltb 0 qty in
  Qle_bool (if emit then yq - qty else yq) 0 = true \/
  Qle_bool (if emit then nq - qty else nq) 0 = true.
Proof.
  cbv zeta. rewrite !Qle_bool_iff.
  destruct (Qltb 0 (py_min yq nq)) eqn:Hemit.
  - destruct (py_min_case yq nq) as [[_ ->]|[_ ->]]; [right|left]; lra.
  - apply Qltb_ge in Hemit.
    destruct (py_min_case yq nq) as [[_ Hm]|[_ Hm]];
      rewrite Hm in Hemit; [right|left]; exact Hemit.
Qed.

(** The number of ladder levels not yet passed. *)
Abbreviation to_go st := (length (yes_rest st) + length (no_rest st))%nat.

Lemma walk_iter_to_go (st st' : walk_state) :
  iter st = Some st' -> (to_go st' < to_go st)%nat.
Proof.
  intros Hit.
  destruct (walk_iter_Some _ _ Hit)
    as (yp & yq & ys & np & nq & ns & Hy & Hn & _ & Hstep).
  cbv zeta in Hstep.
  destruct Hstep as (_ & Hy' & Hn' & _).
  rewrite Hy, Hn, Hy', Hn'.
  destruct (pass_exhausts_a_head yq nq) as [E|E]; cbv zeta in E; rewrite E;
    repeat case_match; simpl; lia.
Qed.

Lemma passes_to_go (n : nat) (st st' : walk_state) :
  passes_to n st st' -> (n + to_go st' <= to_go st)%nat.
Proof.
  induction 1 as [st|n st st1 st2 Hit _ IH]; [lia|].
  apply walk_iter_to_go in Hit. lia.
Qed.

Lemma passes_invariant (P : walk_state -> Prop) (n : nat) (st st' : walk_state) :
  (forall s s', P s -> iter s = Some s' -> P s') ->
  passes_to n st st' -> P st -> P st'.
Proof.
  intros Hstep. induction 1 as [st|n st st1 st2 Hit _ IH]; [done|].
  intros HP. apply IH. by eapply Hstep.
Qed.

Lemma walk_loop_passes (fuel : nat) (st : walk_state) :
  exists n, (n <= fuel)%nat /\ passes_to n st (loop fuel st) /\
            (iter (loop fuel st) = None \/ n = fuel).
Proof.
  revert st. induction fuel as [|fuel IH]; intros st; simpl.
  - exists 0%nat. split; [lia|]. split; [constructor|by right].
  - destruct (iter st) as [st1|] eqn:Hit.
    + destruct (IH st1) as (n & Hn & Hp & Hend).
      exists (S n). split; [lia|]. split; [by econstructor|].
      destruct Hend as [?| ->]; auto.
    + exists 0%nat. split; [lia|]. split; [constructor|by left].
Qed.

(** Enough fuel: the loop has really been left. *)
Lemma walk_loop_halts (fuel : nat) (st : walk_state) :
  (to_go st <= fuel)%nat -> iter (loop fuel st) = None.
Proof.
  intros Hfuel.
  destruct (walk_loop_passes fuel st) as (n & Hn & Hp & [Hend| ->]); [done|].
  apply passes_to_go in Hp.
  destruct (iter (loop fuel st)) as [st1|] eqn:Hit; [|done].
  apply walk_iter_to_go in Hit. lia.
Qed.

Lemma passes_loop (n fuel : nat) (st st' : walk_state) :
  passes_to n st st' -> iter st' = None -> (n <= fuel)%nat ->
  loop fuel st = st'.
Proof.
  intros Hp. revert fuel.
  induction Hp as [st|n st st1 st2 Hit _ IH]; intros fuel Hend Hfuel.
  - destruct fuel; simpl; [done|]. by rewrite Hend.
  - destruct fuel as [|fuel]; [lia|]. simpl. rewrite Hit.
    apply IH; [done|lia].
Qed.

Lemma walk_init_to_go (yes_asks no_asks : list OrderbookLevel) :
  to_go (walk_init yes_asks no_asks) = (length yes_asks + length no_asks)%nat.
Proof.
  unfold yes_rest, no_rest, walk_init. simpl.
  by rewrite !drop_0, !length_map.
Qed.

Lemma passes_bound (n : nat) (yes_asks no_asks : list OrderbookLevel)
    (st : walk_state) :
  passes_to n (walk_init yes_asks no_asks) st ->
  (n <= length yes_asks + length no_asks)%nat.
Proof.
  intros Hp. apply passes_to_go in Hp. rewrite walk_init_to_go in Hp. lia.
Qed.

(** The state in which the loop is left, and the result read from it. *)
Lemma walk_exit_state (yes_asks no_asks : list OrderbookLevel) :
  exists n st,
    (n <= length yes_asks + length no_asks)%nat /\
    passes_to n (walk_init yes_asks no_asks) st /\
    iter st = None /\
    walk yes_asks no_asks = levels st.
Proof.
  unfold _walk_orderbook.
  set (fuel := (length yes_asks + length no_asks)%nat).
  destruct (walk_loop_passes fuel (walk_init yes_asks no_asks))
    as (n & Hn & Hp & _).
  exists n, (loop fuel (walk_init yes_asks no_asks)).
  split; [done|]. split; [done|]. split; [|done].
  apply walk_loop_halts. by rewrite walk_init_to_go.
Qed.

(** *** Profit order and the threshold *)

Lemma ascending_head (yp q : Q) (ys : list (Q * Q)) (y : Q * Q) :
  ascending ((yp, q) :: ys) -> y ∈ (yp, q) :: ys -> yp <= y.1.
Proof.
  intros Hasc Hy. apply StronglySorted_inv in Hasc as [_ Hall].
  apply elem_of_cons in Hy as [->|Hy]; simpl; [lra|].
  rewrite Forall_forall in Hall. by apply (Hall y).
Qed.

Lemma rest_step_ascending (b : bool) (yp q q' : Q) (ys : list (Q * Q)) :
  ascending ((yp, q) :: ys) ->
  ascending (if b then ys else (yp, q') :: ys).
Proof.
  intros Hasc. apply StronglySorted_inv in Hasc as [Hys Hall].
  destruct b; [done|]. by constructor.
Qed.

Lemma rest_step_head (b : bool) (yp q q' : Q) (ys : list (Q * Q)) (y : Q * Q) :
  ascending ((yp, q) :: ys) ->
  y ∈ (if b then ys else (yp, q') :: ys) ->
  yp <= y.1 /\ exists y0, y0 ∈ (yp, q) :: ys /\ y0.1 = y.1.
Proof.
  intros Hasc Hy.
  assert (y ∈ ys \/ y = (yp, q')) as [Hin| ->].
  { destruct b; [by left|]. apply elem_of_cons in Hy as [->|?]; auto. }
  - split.
    + apply (ascending_head yp q ys); [done|]. by apply elem_of_cons; right.
    + exists y. split; [by apply elem_of_cons; right|done].
  - simpl. split; [lra|]. exists (yp, q). split; [by apply elem_of_cons; left|done].
Qed.

Lemma walk_invariant_init (yes_asks no_asks : list OrderbookLevel) :
  sorted_by_price yes_asks -> sorted_by_price no_asks ->
  walk_invariant self (walk_init yes_asks no_asks).
Proof.
  assert (Hmap : forall asks, sorted_by_price asks ->
            ascending (map (fun lvl => (price lvl, size lvl)) asks)).
  { induction 1 as [|a asks ? IH Hall]; simpl; constructor; [done|].
    rewrite Forall_forall in Hall. rewrite Forall_forall. intros y Hy.
    apply list_elem_of_In, in_map_iff in Hy as (b & <- & Hb). simpl.
    by apply Hall, list_elem_of_In. }
  intros Hy Hn. unfold walk_invariant, yes_rest, no_rest, walk_init; simpl.
  rewrite !drop_0.
  split; [by apply Hmap|]. split; [by apply Hmap|].
  split; [constructor|]. split; [constructor|].
  intros l y n Hl. by apply elem_of_nil in Hl.
Qed.

Lemma walk_invariant_pass (st st' : walk_state) :
  walk_invariant self st -> iter st = Some st' -> walk_invariant self st'.
Proof.
  intros (Hya & Hna & Hth & Hdesc & Hahead) Hit.
  destruct (walk_iter_Some _ _ Hit)
    as (yp & yq & ys & np & nq & ns & Hy & Hn & Hok & Hstep).
  cbv zeta in Hstep.
  destruct Hstep as (Hlv & Hy' & Hn' & _).
  rewrite Hy in Hya, Hahead. rewrite Hn in Hna, Hahead.
  unfold walk_invariant. rewrite Hy', Hn', Hlv.
  split; [by eapply rest_step_ascending|].
  split; [by eapply rest_step_ascending|].
  assert (Hold : forall l y n,
            l ∈ levels st ->
            y ∈ (if Qle_bool (if Qltb 0 (py_min yq nq) then yq - py_min yq nq else yq) 0
                 then ys else (yp, if Qltb 0 (py_min yq nq) then yq - py_min yq nq else yq) :: ys) ->
            n ∈ (if Qle_bool (if Qltb 0 (py_min yq nq) then nq - py_min yq nq else nq) 0
                 then ns else (np, if Qltb 0 (py_min yq nq) then nq - py_min yq nq else nq) :: ns) ->
            1 - (y.1 + n.1) <= profit_percentage l).
  { intros l y n Hl Hyin Hnin.
    destruct (rest_step_head _ _ _ _ _ _ Hya Hyin) as (_ & y0 & Hy0 & <-).
    destruct (rest_step_head _ _ _ _ _ _ Hna Hnin) as (_ & n0 & Hn0 & <-).
    by apply Hahead. }
  destruct (Qltb 0 (py_min yq nq)) eqn:Hemit.
  - split.
    { apply Forall_app. split; [done|]. by repeat constructor. }
    split.
    { apply StronglySorted_app_2; [|done|by repeat constructor].
      intros l1 l2 Hl1 Hl2. apply list_elem_of_singleton in Hl2 as ->. simpl.
      apply (Hahead l1 (yp, yq) (np, nq)); [done|by left|by left]. }
    intros l y n Hl Hyin Hnin.
    apply elem_of_app in Hl as [Hl|Hl]; [by apply Hold|].
    apply list_elem_of_singleton in Hl as ->. simpl.
    destruct (rest_step_head _ _ _ _ _ _ Hya Hyin) as (Hyp & _).
    destruct (rest_step_head _ _ _ _ _ _ Hna Hnin) as (Hnp & _).
    lra.
  - rewrite app_nil_r. split; [done|]. split; [done|]. exact Hold.
Qed.

Lemma walk_invariant_passes (n : nat) (yes_asks no_asks : list OrderbookLevel)
    (st : walk_state) :
  sorted_by_price yes_asks -> sorted_by_price no_asks ->
  passes_to n (walk_init yes_asks no_asks) st ->
  walk_invariant self st.
Proof.
  intros Hy Hn Hp.
  eapply (passes_invariant (walk_invariant self)); [|exact Hp|].
  - intros s s'. apply walk_invariant_pass.
  - by apply walk_invariant_init.
Qed.

(** C1. On ladders sorted ascending by price, the levels that the walk
    emits are in non-increasing order of [profit_percentage], each of them
    is at or above [min_profit_threshold], and the walk stops at the first
    head combination below the threshold: the result is exactly what had
    been emitted before that combination was reached.  Nothing ahead of
    that point is lost: every combination of the levels still ahead is
    below the threshold too.  The sizes play no part in this, so sizes
    >= 0 need not be assumed. *)
Theorem walk_profit_order (yes_asks no_asks : list OrderbookLevel) :
  sorted_by_price yes_asks ->
  sorted_by_price no_asks ->
  profit_descending (walk yes_asks no_asks) /\
  Forall (fun l => threshold <= profit_percentage l) (walk yes_asks no_asks) /\
  (forall n st,
     passes_to n (walk_init yes_asks no_asks) st ->
     below_threshold self st ->
     walk yes_asks no_asks = levels st /\
     forall y m, y ∈ yes_rest st -> m ∈ no_rest st ->
       1 - (y.1 + m.1) < threshold).
Proof.
  intros Hy Hn.
  destruct (walk_exit_state yes_asks no_asks) as (k & fin & _ & Hp & _ & Hfin).
  destruct (walk_invariant_passes _ _ _ _ Hy Hn Hp) as (_ & _ & Hth & Hdesc & _).
  rewrite Hfin.
  split; [done|]. split; [done|].
  intros n st Hpn Hbelow.
  assert (Hend : iter st = None) by (apply walk_iter_None; auto).
  split.
  - rewrite <- Hfin. unfold _walk_orderbook. f_equal.
    eapply passes_loop; [exact Hpn|done|by eapply passes_bound].
  - destruct (walk_invariant_passes _ _ _ _ Hy Hn Hpn) as (Hya & Hna & _).
    destruct Hbelow as (yp & yq & np & nq & Hyl & Hnl & Hlt).
    unfold yes_rest, no_rest in *.
    rewrite (drop_S _ _ _ Hyl) in Hya |- *.
    rewrite (drop_S _ _ _ Hnl) in Hna |- *.
    intros y m Hyin Hmin.
    pose proof (ascending_head _ _ _ _ Hya Hyin).
    pose proof (ascending_head _ _ _ _ Hna Hmin).
    lra.
Qed.

End WalkFacts.

(** ** The walk on the scenarios *)

Section WalkScenarios.

Import ArbitrageCalculator Scenarios.
Local Open Scope Q_scope.

Variables yes_platform no_platform : Platform.

(** C8. On yes_asks = [(0.48, 20), (0.50, 30)], no_asks = [(0.50, 40)] and
    threshold 0.02 the walk emits exactly one level, of quantity 20, total
    cost 0.98 and profit 0.02; after that one pass the heads are
    (0.50, 30) and (0.50, 20 left of 40), whose profit 0.00 is below the
    threshold, and the loop is left there. *)
Theorem walk_scenario_B :
  exists l st,
    _walk_orderbook calculator yes_platform no_platform
      scenario_B_yes scenario_B_no = [l] /\
    quantity l == 20 /\
    total_cost l == 0.98 /\
    profit_percentage l == 0.02 /\
    buy_yes_price l = 0.48 /\ buy_no_price l = 0.50 /\
    walk_iter calculator yes_platform no_platform
      (walk_init scenario_B_yes scenario_B_no) = Some st /\
    levels st = [l] /\
    yes_remaining st !! yes_idx st = Some (0.50, 30) /\
    (exists left_no, no_remaining st !! no_idx st = Some (0.50, left_no) /\
                     left_no == 20) /\
    1 - (0.50 + 0.50) < min_profit_threshold calculator /\
    walk_iter calculator yes_platform no_platform st = None.
Proof.
  eexists. eexists.
  split; [reflexivity|].
  repeat (split; [reflexivity || (vm_compute; reflexivity)|]).
  split; [eexists; split; [reflexivity|vm_compute; reflexivity]|].
  split; [vm_compute; reflexivity|reflexivity].
Qed.

Lemma walk_profit_order_witness :
  sorted_by_price scenario_B_yes /\
  sorted_by_price scenario_B_no /\
  profit_descending
    (_walk_orderbook calculator KALSHI POLYMARKET scenario_B_yes scenario_B_no) /\
  Forall (fun l => min_profit_threshold calculator <= profit_percentage l)
    (_walk_orderbook calculator KALSHI POLYMARKET scenario_B_yes scenario_B_no).
Proof.
  assert (Hy : sorted_by_price scenario_B_yes).
  { repeat constructor; unfold Qle; simpl; lia. }
  assert (Hn : sorted_by_price scenario_B_no).
  { repeat constructor. }
  split; [exact Hy|]. split; [exact Hn|].
  destruct (walk_profit_order calculator KALSHI POLYMARKET
              scenario_B_yes scenario_B_no Hy Hn) as (Hdesc & Hth & _).
  split; [exact Hdesc|exact Hth].
Defined.

End WalkScenarios.

(** ** Opportunities *)

Section OpportunityFacts.

Import ArbitrageCalculator.
Local Open Scope Q_scope.

Variable self : ArbitrageCalculator.t.

Lemma insert_desc_perm {A : Type} (key : A -> Q) (x : A) (l : list A) :
  Permutation (insert_desc key x l) (x :: l).
Proof.
  induction l as [|y l IH]; simpl; [done|].
  destruct (Qltb (key x) (key y)); [|done].
  rewrite IH. apply perm_swap.
Qed.

Lemma sorted_desc_perm {A : Type} (key : A -> Q) (l : list A) :
  Permutation (sorted_desc key l) l.
Proof.
  induction l as [|x l IH]; simpl; [done|].
  rewrite insert_desc_perm. by constructor.
Qed.

Lemma sorted_desc_nil {A : Type} (key : A -> Q) (l : list A) :
  sorted_desc key l = [] <-> l = [].
Proof.
  split; [|by intros ->].
  intros Hnil. apply Permutation_nil. rewrite <- Hnil.
  apply sorted_desc_perm.
Qed.

(** The levels of both directions for a pair of books, before sorting. *)
Abbreviation both_walks kalshi_book poly_book :=
  (_walk_orderbook self KALSHI POLYMARKET (yes_asks kalshi_book) (no_asks poly_book) ++
   _walk_orderbook self POLYMARKET KALSHI (yes_asks poly_book) (no_asks kalshi_book)).

(** The opportunity built for a pair from its two books. *)
Abbreviation opportunity_for pair kalshi_book poly_book :=
  {| opp_kalshi_market := kalshi_market pair;
     opp_poly_market := poly_market pair;
     opp_match_score := match_score pair;
     opp_levels := sorted_desc profit_percentage (both_walks kalshi_book poly_book) |}.

Lemma calculate_opportunity_Some (pair : MarketPair) (kalshi_book poly_book : Orderbook)
    (o : ArbitrageOpportunity) :
  calculate_opportunity self pair kalshi_book poly_book = Some o <->
  both_walks kalshi_book poly_book <> [] /\
  o = opportunity_for pair kalshi_book poly_book.
Proof.
  unfold calculate_opportunity.
  destruct (sorted_desc profit_percentage (both_walks kalshi_book poly_book))
    as [|l lv] eqn:E.
  - apply sorted_desc_nil in E. split; [done|]. intros [Hne _]. by destruct Hne.
  - split.
    + intros [= <-]. split; [|done].
      intros Hnil. rewrite Hnil in E. done.
    + intros [_ ->]. done.
Qed.

Lemma calculate_opportunity_None (pair : MarketPair) (kalshi_book poly_book : Orderbook) :
  calculate_opportunity self pair kalshi_book poly_book = None <->
  both_walks kalshi_book poly_book = [].
Proof.
  unfold calculate_opportunity.
  destruct (sorted_desc profit_percentage (both_walks kalshi_book poly_book))
    as [|l lv] eqn:E.
  - apply sorted_desc_nil in E. done.
  - split; [done|]. intros Hnil. rewrite Hnil in E. done.
Qed.

Lemma opportunity_of_pair_Some (kalshi_orderbooks poly_orderbooks : gmap string Orderbook)
    (pair : MarketPair) (o : ArbitrageOpportunity) :
  opportunity_of_pair self kalshi_orderbooks poly_orderbooks pair = Some o <->
  exists kalshi_book poly_book,
    kalshi_orderbooks !! market_id (kalshi_market pair) = Some kalshi_book /\
    poly_orderbooks !! market_id (poly_market pair) = Some poly_book /\
    both_walks kalshi_book poly_book <> [] /\
    o = opportunity_for pair kalshi_book poly_book.
Proof.
  unfold opportunity_of_pair.
  destruct (kalshi_orderbooks !! market_id (kalshi_market pair)) as [kb|];
    [destruct (poly_orderbooks !! market_id (poly_market pair)) as [pb|]|].
  - rewrite calculate_opportunity_Some. split.
    + intros [Hne ->]. by exists kb, pb.
    + intros (kb' & pb' & [= <-] & [= <-] & Hne & ->). done.
  - split; [done|]. intros (kb' & pb' & _ & [=] & _).
  - split; [done|]. intros (kb' & pb' & [=] & _).
Qed.

(** The [for] loop appends, in order, the opportunity of every pair that
    has one. *)
Lemma collect_opportunities (f : MarketPair -> option ArbitrageOpportunity)
    (acc : list ArbitrageOpportunity) (pairs : list MarketPair) :
  foldl (fun opportunities pair =>
           match f pair with
           | Some opp => opportunities ++ [opp]
           | None => opportunities
           end) acc pairs
  = acc ++ omap f pairs.
Proof.
  revert acc. induction pairs as [|pair pairs IH]; intros acc; simpl.
  - by rewrite app_nil_r.
  - rewrite IH. destruct (f pair); [|done]. by rewrite <- app_assoc.
Qed.

(** C7. [find_all_opportunities] returns, up to the final sort, one
    opportunity for each pair that has one, and a pair has one exactly
    when both of its books are in the maps and the two walks together emit
    at least one level.  A pair with a missing book contributes nothing
    (and nothing is raised: the function is total), and every returned
    opportunity has a non-empty list of levels. *)
Theorem find_all_opportunities_spec (pairs : list MarketPair)
    (kalshi_orderbooks poly_orderbooks : gmap string Orderbook) :
  let out := find_all_opportunities self pairs kalshi_orderbooks poly_orderbooks in
  let has_opportunity pair :=
    exists kalshi_book poly_book,
      kalshi_orderbooks !! market_id (kalshi_market pair) = Some kalshi_book /\
      poly_orderbooks !! market_id (poly_market pair) = Some poly_book /\
      both_walks kalshi_book poly_book <> [] in
  Permutation out
    (omap (opportunity_of_pair self kalshi_orderbooks poly_orderbooks) pairs) /\
  (forall pair,
     is_Some (opportunity_of_pair self kalshi_orderbooks poly_orderbooks pair)
     <-> has_opportunity pair) /\
  (forall o,
     o ∈ out <->
     exists pair kalshi_book poly_book,
       pair ∈ pairs /\
       kalshi_orderbooks !! market_id (kalshi_market pair) = Some kalshi_book /\
       poly_orderbooks !! market_id (poly_market pair) = Some poly_book /\
       both_walks kalshi_book poly_book <> [] /\
       o = opportunity_for pair kalshi_book poly_book) /\
  (forall pair,
     kalshi_orderbooks !! market_id (kalshi_market pair) = None \/
     poly_orderbooks !! market_id (poly_market pair) = None ->
     opportunity_of_pair self kalshi_orderbooks poly_orderbooks pair = None) /\
  Forall (fun o => opp_levels o <> [] /\ is_profitable o = true) out.
Proof.
  cbv zeta.
  assert (Hperm : Permutation
            (find_all_opportunities self pairs kalshi_orderbooks poly_orderbooks)
            (omap (opportunity_of_pair self kalshi_orderbooks poly_orderbooks) pairs)).
  { unfold find_all_opportunities. rewrite sorted_desc_perm.
    by rewrite collect_opportunities. }
  assert (Hmem : forall o,
            o ∈ find_all_opportunities self pairs kalshi_orderbooks poly_orderbooks <->
            exists pair kalshi_book poly_book,
              pair ∈ pairs /\
              kalshi_orderbooks !! market_id (kalshi_market pair) = Some kalshi_book /\
              poly_orderbooks !! market_id (poly_market pair) = Some poly_book /\
              both_walks kalshi_book poly_book <> [] /\
              o = opportunity_for pair kalshi_book poly_book).
  { intros o. rewrite Hperm, list_elem_of_omap. split.
    - intros (pair & Hin & Hsome).
      apply opportunity_of_pair_Some in Hsome as (kb & pb & ? & ? & ? & ?).
      by exists pair, kb, pb.
    - intros (pair & kb & pb & Hin & ? & ? & ? & ?).
      exists pair. split; [done|]. apply opportunity_of_pair_Some. by exists kb, pb. }
  split; [exact Hperm|].
  split.
  { intros pair. split.
    - intros [o Ho]. apply opportunity_of_pair_Some in Ho as (kb & pb & ? & ? & ? & _).
      by exists kb, pb.
    - intros (kb & pb & ? & ? & ?). exists (opportunity_for pair kb pb).
      apply opportunity_of_pair_Some. by exists kb, pb. }
  split; [exact Hmem|].
  split.
  { intros pair Hmiss. unfold opportunity_of_pair.
    destruct Hmiss as [-> | ->]; [done|]. by case_match. }
  apply Forall_forall. intros o Ho.
  apply Hmem in Ho as (pair & kb & pb & _ & _ & _ & Hne & ->).
  unfold is_profitable. simpl.
  destruct (sorted_desc profit_percentage (both_walks kb pb)) as [|l lv] eqn:E.
  - by apply sorted_desc_nil in E.
  - done.
Qed.

End OpportunityFacts.

(** ** The matcher *)

Section MatcherFacts.

Import FuzzyMatcher.
Local Open Scope Q_scope.

Context `{PyStr} `{RapidFuzz} `{Numpy}.

Variable self : FuzzyMatcher.t.

Lemma argmax_from_bound (l : list Q) (best_idx : nat) (best : Q) (i : nat) :
  (best_idx < i)%nat -> ((argmax_from best_idx best i l).1 < i + length l)%nat.
Proof.
  revert best_idx best i. induction l as [|x l IH]; intros bi b i Hlt; simpl.
  - lia.
  - destruct (Qltb b x).
    + specialize (IH i x (S i)). lia.
    + specialize (IH bi b (S i)). lia.
Qed.

Lemma np_argmax_Returned (row : list Q) :
  row <> [] -> exists j, np_argmax row = Returned j /\ (j < length row)%nat.
Proof.
  destruct row as [|x l]; [done|]. intros _. eexists. split; [reflexivity|].
  pose proof (argmax_from_bound l 0 x 1). simpl. lia.
Qed.

Lemma np_max_Returned (row : list Q) :
  row <> [] -> exists v, np_max row = Returned v.
Proof. destruct row as [|x l]; [done|]. intros _. by eexists. Qed.

Lemma along_rows_Returned {A : Type} (f : list Q -> outcome A) (P : A -> Prop)
    (rows : list (list Q)) :
  Forall (fun r => exists v, f r = Returned v /\ P v) rows ->
  exists vs, along_rows f rows = Returned vs /\
             length vs = length rows /\ Forall P vs.
Proof.
  induction 1 as [|r rows (v & Hv & HP) _ (vs & Hvs & Hlen & Hall)]; simpl.
  - by exists [].
  - rewrite Hv. simpl. rewrite Hvs. simpl. exists (v :: vs).
    split; [done|]. split; [simpl; lia|by constructor].
Qed.

Lemma cdist_rows (scorer : string -> string -> Q) (queries choices : list string) :
  length (cdist scorer queries choices) = length queries /\
  Forall (fun r => length r = length choices) (cdist scorer queries choices).
Proof.
  unfold cdist. split; [by rewrite length_map|].
  apply Forall_map. apply Forall_forall. intros q _. by rewrite length_map.
Qed.

(** One pass of the [for] loop when every index is in range. *)
Lemma match_step_Returned (kalshi_markets poly_markets : list UnifiedMarket)
    (best_poly_indices : list nat) (best_scores : list Q) (st : loop_state)
    (i j : nat) (score : Q) (k p : UnifiedMarket) :
  best_poly_indices !! i = Some j ->
  best_scores !! i = Some score ->
  kalshi_markets !! i = Some k ->
  poly_markets !! j = Some p ->
  match_step self kalshi_markets poly_markets best_poly_indices best_scores st i
  = Returned
      (if Qle_bool (inject_Z (threshold self)) score
          && negb (bool_decide (j ∈ matched_poly_indices st))
       then {| matches := matches st ++
                 [ {| kalshi_market := k; poly_market := p; match_score := score |} ];
               matched_poly_indices := matched_poly_indices st ∪ {[ j ]} |}
       else st).
Proof.
  intros Hj Hs Hk Hp. unfold match_step, py_getitem.
  rewrite Hj, Hs. simpl.
  destruct (Qle_bool (inject_Z (threshold self)) score
            && negb (bool_decide (j ∈ matched_poly_indices st))); [|done].
  rewrite Hk, Hp. done.
Qed.

(** What the loop maintains: the pairs committed so far come from
    distinct Kalshi positions among those already visited and from
    distinct Polymarket positions, all recorded as matched, and each
    score is at or above the threshold. *)
Lemma match_loop_spec (kalshi_markets poly_markets : list UnifiedMarket)
    (best_poly_indices : list nat) (best_scores : list Q)
    (indices visited : list nat) (st : loop_state) (idxs : list (nat * nat)) :
  length best_poly_indices = length kalshi_markets ->
  length best_scores = length kalshi_markets ->
  Forall (fun j => (j < length poly_markets)%nat) best_poly_indices ->
  Forall (fun i => (i < length kalshi_markets)%nat) indices ->
  NoDup (visited ++ indices) ->
  Forall2 (pair_of_indices kalshi_markets poly_markets) idxs (matches st) ->
  Forall (fun p => inject_Z (threshold self) <= match_score p) (matches st) ->
  (forall ij, ij ∈ idxs -> ij.1 ∈ visited /\ ij.2 ∈ matched_poly_indices st) ->
  NoDup idxs.*1 -> NoDup idxs.*2 ->
  exists st' idxs',
    match_loop self kalshi_markets poly_markets best_poly_indices best_scores
      st indices = Returned st' /\
    Forall2 (pair_of_indices kalshi_markets poly_markets) idxs' (matches st') /\
    Forall (fun p => inject_Z (threshold self) <= match_score p) (matches st') /\
    NoDup idxs'.*1 /\ NoDup idxs'.*2.
Proof.
  intros Hlen1 Hlen2 Hcols.
  revert visited st idxs.
  induction indices as [|i indices IH];
    intros visited st idxs Hrange Hnodup Hpairs Hth Hseen Hnd1 Hnd2; simpl.
  - by exists st, idxs.
  - apply Forall_cons in Hrange as [Hi Hrange].
    destruct (lookup_lt_is_Some_2 best_poly_indices i) as [j Hj]; [lia|].
    destruct (lookup_lt_is_Some_2 best_scores i) as [score Hs]; [lia|].
    destruct (lookup_lt_is_Some_2 kalshi_markets i) as [k Hk]; [lia|].
    assert (Hjlt : (j < length poly_markets)%nat).
    { rewrite Forall_forall in Hcols. apply Hcols.
      by eapply list_elem_of_lookup_2. }
    destruct (lookup_lt_is_Some_2 poly_markets j) as [p Hp]; [lia|].
    rewrite (match_step_Returned _ _ _ _ st i j score k p Hj Hs Hk Hp). simpl.
    assert (Hnodup' : NoDup ((visited ++ [i]) ++ indices)).
    { by rewrite <- app_assoc. }
    assert (Hfresh : i ∉ visited).
    { apply NoDup_app in Hnodup as (_ & Hdisj & _).
      intros Hin. apply (Hdisj i Hin). by left. }
    destruct (Qle_bool (inject_Z (threshold self)) score) eqn:Hscore; simpl.
    + destruct (bool_decide (j ∈ matched_poly_indices st)) eqn:Hmatched; simpl.
      * apply (IH (visited ++ [i]) st idxs); try done.
        intros ij Hij. destruct (Hseen ij Hij). split; [|done].
        apply elem_of_app. by left.
      * apply bool_decide_eq_false in Hmatched.
        apply Qle_bool_iff in Hscore.
        apply (IH (visited ++ [i]) _ (idxs ++ [(i, j)])); try done; simpl.
        -- apply Forall2_app; [done|]. by repeat constructor.
        -- apply Forall_app. split; [done|]. by repeat constructor.
        -- intros ij Hij. apply elem_of_app in Hij as [Hij|Hij].
           ++ destruct (Hseen ij Hij). split; [apply elem_of_app; by left|].
              apply elem_of_union. by left.
           ++ apply list_elem_of_singleton in Hij as ->. simpl.
              split; [apply elem_of_app; right; by left|].
              apply elem_of_union. right. by apply elem_of_singleton.
        -- rewrite fmap_app. apply NoDup_app. split; [done|].
           split; [|by apply NoDup_singleton].
           intros i' Hi' Hi''. apply list_elem_of_singleton in Hi''. subst i'.
           apply list_elem_of_fmap in Hi' as (ij & Heq & Hij). simpl in Heq.
           destruct (Hseen ij Hij) as [Hin _]. by rewrite <- Heq in Hin.
        -- rewrite fmap_app. apply NoDup_app. split; [done|].
           split; [|by apply NoDup_singleton].
           intros j' Hj' Hj''. apply list_elem_of_singleton in Hj''. subst j'.
           apply list_elem_of_fmap in Hj' as (ij & Heq & Hij). simpl in Heq.
           destruct (Hseen ij Hij) as [_ Hin]. by rewrite <- Heq in Hin.
    + apply (IH (visited ++ [i]) st idxs); try done.
      intros ij Hij. destruct (Hseen ij Hij). split; [|done].
      apply elem_of_app. by left.
Qed.

Lemma argsort_indices (a : list Q) :
  argsort_spec ->
  NoDup (rev (argsort a)) /\
  Forall (fun i => (i < length a)%nat) (rev (argsort a)).
Proof.
  intros Hspec. destruct (Hspec a) as [Hperm _].
  assert (Hrev : Permutation (rev (argsort a)) (seq 0 (length a))).
  { rewrite <- Hperm. symmetry. apply Permutation_rev. }
  split.
  - rewrite Hrev. apply NoDup_seq.
  - rewrite Hrev. apply Forall_forall. intros i Hi.
    apply elem_of_seq in Hi. lia.
Qed.

(** The pairs returned come from distinct positions of either list, and
    none is below the threshold; and the call does return. *)
Lemma find_matches_indices (kalshi_markets poly_markets : list UnifiedMarket) :
  argsort_spec ->
  exists pairs idxs,
    find_matches self kalshi_markets poly_markets = Returned pairs /\
    Forall2 (pair_of_indices kalshi_markets poly_markets) idxs pairs /\
    Forall (fun p => inject_Z (threshold self) <= match_score p) pairs /\
    NoDup idxs.*1 /\ NoDup idxs.*2.
Proof.
  intros Hspec.
  assert (Hempty : exists pairs idxs,
            @Returned (list MarketPair) [] = Returned pairs /\
            Forall2 (pair_of_indices kalshi_markets poly_markets) idxs pairs /\
            Forall (fun p => inject_Z (threshold self) <= match_score p) pairs /\
            NoDup idxs.*1 /\ NoDup idxs.*2).
  { exists [], []. repeat split; constructor. }
  unfold find_matches.
  destruct kalshi_markets as [|k0 km'] eqn:Ek; [done|].
  destruct poly_markets as [|p0 pm'] eqn:Ep; [done|].
  clear Hempty. rewrite <- Ek, <- Ep.
  assert (Hpm : (0 < length poly_markets)%nat) by (subst; simpl; lia).
  clear Ek Ep k0 km' p0 pm'.
  unfold match_markets.
  set (scores := cdist token_sort_ratio (map normalized_title kalshi_markets)
                   (map normalized_title poly_markets)).
  destruct (cdist_rows token_sort_ratio (map normalized_title kalshi_markets)
              (map normalized_title poly_markets)) as [Hrows Hcols].
  fold scores in Hrows, Hcols. rewrite !length_map in Hrows.
  assert (Hne : Forall (fun r : list Q => r <> []) scores).
  { eapply Forall_impl; [exact Hcols|]. intros r Hr ->.
    rewrite length_map in Hr. simpl in Hr. lia. }
  destruct (along_rows_Returned np_argmax
              (fun j => (j < length poly_markets)%nat) scores)
    as (bpi & -> & Hbpi_len & Hbpi).
  { rewrite Forall_forall in Hne, Hcols. apply Forall_forall. intros r Hr.
    destruct (np_argmax_Returned r (Hne r Hr)) as (j & Hj & Hlt).
    exists j. split; [done|]. rewrite (Hcols r Hr), length_map in Hlt. done. }
  destruct (along_rows_Returned np_max (fun _ => True) scores)
    as (bs & -> & Hbs_len & _).
  { eapply Forall_impl; [exact Hne|]. intros r Hr.
    destruct (np_max_Returned r Hr) as (v & Hv). by exists v. }
  simpl.
  destruct (argsort_indices bs Hspec) as [Hnd Hrange].
  destruct (match_loop_spec kalshi_markets poly_markets bpi bs
              (rev (argsort bs)) [] {| matches := []; matched_poly_indices := ∅ |} [])
    as (st' & idxs & -> & Hpairs & Hth & Hnd1 & Hnd2);
    try done.
  - lia.
  - lia.
  - eapply Forall_impl; [exact Hrange|]. simpl. intros i Hi. lia.
  - intros ij Hij. by apply elem_of_nil in Hij.
  - constructor.
  - constructor.
  - simpl. by exists (matches st'), idxs.
Qed.

(** Items picked from distinct positions of a list whose keys are all
    different have different keys. *)
Lemma NoDup_picked {A P K : Type} (key : A -> K) (src : list A)
    (sel : nat * nat -> nat) (proj : P -> A)
    (idxs : list (nat * nat)) (picked : list P) :
  Forall2 (fun ij p => src !! sel ij = Some (proj p)) idxs picked ->
  NoDup (sel <$> idxs) ->
  NoDup (map key src) ->
  NoDup (map (fun p => key (proj p)) picked).
Proof.
  intros Hpick Hsel Hkeys.
  change (NoDup (key <$> src)) in Hkeys.
  change (NoDup ((fun p => key (proj p)) <$> picked)).
  apply NoDup_alt. intros a b x Ha Hb.
  apply list_lookup_fmap_Some in Ha as (p1 & -> & Hp1).
  apply list_lookup_fmap_Some in Hb as (p2 & Hkey & Hp2).
  destruct (Forall2_lookup_r _ _ _ _ _ Hpick Hp1) as (ij1 & Hij1 & Hsrc1).
  destruct (Forall2_lookup_r _ _ _ _ _ Hpick Hp2) as (ij2 & Hij2 & Hsrc2).
  assert (Heq : sel ij1 = sel ij2).
  { eapply (NoDup_lookup _ _ _ _ Hkeys); rewrite list_lookup_fmap.
    - by rewrite Hsrc1.
    - rewrite Hsrc2. simpl. by rewrite Hkey. }
  eapply (NoDup_lookup _ _ _ _ Hsel); rewrite list_lookup_fmap.
  - by rewrite Hij1.
  - rewrite Hij2. simpl. by rewrite Heq.
Qed.

(** C2, as the code has it.  [find_matches] returns; every pair it
    returns has a score at or above the threshold; the pairs are built
    from distinct positions of the Kalshi list and from distinct positions
    of the Polymarket list.  So where the entries of a list have different
    (platform, market id), no market of that list is in two pairs. *)
Theorem find_matches_one_to_one (kalshi_markets poly_markets : list UnifiedMarket) :
  argsort_spec ->
  exists pairs idxs,
    find_matches self kalshi_markets poly_markets = Returned pairs /\
    Forall (fun p => inject_Z (threshold self) <= match_score p) pairs /\
    Forall2 (pair_of_indices kalshi_markets poly_markets) idxs pairs /\
    NoDup idxs.*1 /\ NoDup idxs.*2 /\
    (NoDup (map market_key kalshi_markets) ->
     NoDup (map (fun p => market_key (kalshi_market p)) pairs)) /\
    (NoDup (map market_key poly_markets) ->
     NoDup (map (fun p => market_key (poly_market p)) pairs)).
Proof.
  intros Hspec.
  destruct (find_matches_indices kalshi_markets poly_markets Hspec)
    as (pairs & idxs & Hret & Hpairs & Hth & Hnd1 & Hnd2).
  exists pairs, idxs. repeat (split; [done|]).
  split; intros Hkeys.
  - eapply (NoDup_picked market_key kalshi_markets fst kalshi_market idxs);
      [|done|done].
    eapply Forall2_impl; [exact Hpairs|]. by intros ij p [? _].
  - eapply (NoDup_picked market_key poly_markets snd poly_market idxs);
      [|done|done].
    eapply Forall2_impl; [exact Hpairs|]. by intros ij p [_ ?].
Qed.

Lemma argsort_two (x y : Q) :
  argsort_spec -> y < x -> argsort [x; y] = [1; 0]%nat.
Proof.
  intros Hspec Hlt. destruct (Hspec [x; y]) as [Hperm Hord].
  symmetry in Hperm. apply Permutation_length_2_inv in Hperm as [E|E]; [|done].
  specialize (Hord 0 1 0 1 x y)%nat. rewrite E in Hord.
  assert (x <= y) by (apply Hord; [lia|done..]). lra.
Qed.

(** C5. Threshold 80, two Kalshi markets whose best Polymarket match is
    the same market [b], with best scores 90 and 85: the result is the
    single pair of the 90-score market with [b].  The other Kalshi market
    is in no pair, whatever it scores against the remaining Polymarket
    markets, 81 included. *)
Theorem shared_best_match (k1 k2 : UnifiedMarket) (poly_markets : list UnifiedMarket)
    (j : nat) (b : UnifiedMarket) (s1 s2 : Q) :
  argsort_spec ->
  threshold self = 80%Z ->
  poly_markets !! j = Some b ->
  np_argmax (score_row k1 poly_markets) = Returned j ->
  np_max (score_row k1 poly_markets) = Returned s1 ->
  s1 == 90 ->
  np_argmax (score_row k2 poly_markets) = Returned j ->
  np_max (score_row k2 poly_markets) = Returned s2 ->
  s2 == 85 ->
  find_matches self [k1; k2] poly_markets
  = Returned [ {| kalshi_market := k1; poly_market := b; match_score := s1 |} ].
Proof.
  intros Hspec Hth Hb Harg1 Hmax1 Hs1 Harg2 Hmax2 Hs2.
  unfold find_matches.
  destruct poly_markets as [|p0 pm'] eqn:Epm; [done|]. rewrite <- Epm in *.
  clear Epm p0 pm'.
  unfold match_markets.
  change (cdist token_sort_ratio (map normalized_title [k1; k2])
            (map normalized_title poly_markets))
    with [score_row k1 poly_markets; score_row k2 poly_markets].
  simpl along_rows. rewrite Harg1, Harg2, Hmax1, Hmax2. simpl.
  rewrite (argsort_two s1 s2 Hspec) by lra. simpl.
  rewrite (match_step_Returned [k1; k2] poly_markets [j; j] [s1; s2] _
             0 j s1 k1 b) by done.
  assert (Hok1 : Qle_bool (inject_Z (threshold self)) s1 = true).
  { apply Qle_bool_iff. rewrite Hth, Hs1. unfold Qle; simpl; lia. }
  assert (Hok2 : Qle_bool (inject_Z (threshold self)) s2 = true).
  { apply Qle_bool_iff. rewrite Hth, Hs2. unfold Qle; simpl; lia. }
  rewrite Hok1. simpl.
  rewrite bool_decide_eq_false_2 by set_solver. simpl.
  rewrite (match_step_Returned [k1; k2] poly_markets [j; j] [s1; s2] _
             1 j s2 k2 b) by done.
  rewrite Hok2. simpl.
  rewrite bool_decide_eq_true_2 by set_solver. simpl.
  done.
Qed.

End MatcherFacts.

(** ** The example [argsort] meets numpy's contract *)

Section ExampleArgsort.

Import Examples.
Local Open Scope Q_scope.

Lemma StronglySorted_lookup_lt {A : Type} (R : A -> A -> Prop) (l : list A)
    (p q : nat) (x y : A) :
  StronglySorted R l -> (p < q)%nat ->
  l !! p = Some x -> l !! q = Some y -> R x y.
Proof.
  intros Hsorted. revert p q.
  induction Hsorted as [|a l _ IH Hall]; intros p q Hpq Hp Hq; [done|].
  destruct q as [|q]; [lia|]. simpl in Hq.
  destruct p as [|p]; simpl in Hp.
  - injection Hp as <-. rewrite Forall_forall in Hall.
    apply Hall. by eapply list_elem_of_lookup_2.
  - apply (IH p q); [lia|done|done].
Qed.

Lemma insert_asc_perm (key : nat -> Q) (i : nat) (l : list nat) :
  Permutation (insert_asc key i l) (i :: l).
Proof.
  induction l as [|j l IH]; simpl; [done|].
  destruct (Qltb (key j) (key i)); [|done].
  rewrite IH. apply perm_swap.
Qed.

Lemma insert_asc_sorted (key : nat -> Q) (i : nat) (l : list nat) :
  StronglySorted (fun i j => key i <= key j) l ->
  StronglySorted (fun i j => key i <= key j) (insert_asc key i l).
Proof.
  induction 1 as [|j l Hl IH Hall]; simpl.
  - by repeat constructor.
  - destruct (Qltb (key j) (key i)) eqn:E.
    + apply Qltb_lt in E. constructor; [done|].
      rewrite insert_asc_perm. constructor; [simpl; lra|done].
    + apply Qltb_ge in E. constructor; [by constructor|].
      constructor; [simpl; lra|].
      eapply Forall_impl; [exact Hall|]. simpl. intros k Hk. lra.
Qed.

Lemma stable_argsort_spec : @argsort_spec stable_numpy.
Proof.
  intros a. unfold argsort, stable_numpy, stable_argsort.
  set (key := fun i => nth i a 0).
  assert (Hperm : forall l, Permutation (foldr (insert_asc key) [] l) l).
  { induction l as [|i l IH]; simpl; [done|].
    rewrite insert_asc_perm. by constructor. }
  assert (Hsorted : forall l,
            StronglySorted (fun i j => key i <= key j) (foldr (insert_asc key) [] l)).
  { induction l as [|i l IH]; simpl; [constructor|]. by apply insert_asc_sorted. }
  split; [apply Hperm|].
  intros p q i j x y Hpq Hi Hj Hx Hy.
  assert (Hkx : key i = x) by (by apply nth_lookup_Some).
  assert (Hky : key j = y) by (by apply nth_lookup_Some).
  rewrite <- Hkx, <- Hky.
  destruct (decide (p = q)) as [->|Hne].
  - assert (i = j) by congruence. subst j. apply Qle_refl.
  - apply (StronglySorted_lookup_lt (fun i j => key i <= key j) _ p q i j
             (Hsorted (seq 0 (length a)))); [lia|done|done].
Qed.

End ExampleArgsort.

(** ** The matcher on the scenarios *)

Section MatcherScenarios.

Import FuzzyMatcher Examples Scenarios.
Local Open Scope Q_scope.

Lemma find_matches_one_to_one_witness :
  @argsort_spec stable_numpy /\
  exists pairs idxs,
    @find_matches ascii_str scenario_D_scores stable_numpy matcher
      scenario_D_kalshi scenario_D_poly = Returned pairs /\
    Forall (fun p => inject_Z (threshold matcher) <= match_score p) pairs /\
    Forall2 (pair_of_indices scenario_D_kalshi scenario_D_poly) idxs pairs /\
    NoDup idxs.*1 /\ NoDup idxs.*2 /\
    (NoDup (map market_key scenario_D_kalshi) ->
     NoDup (map (fun p => market_key (kalshi_market p)) pairs)) /\
    (NoDup (map market_key scenario_D_poly) ->
     NoDup (map (fun p => market_key (poly_market p)) pairs)).
Proof.
  split; [exact stable_argsort_spec|].
  exact (@find_matches_one_to_one ascii_str scenario_D_scores stable_numpy matcher
           scenario_D_kalshi scenario_D_poly stable_argsort_spec).
Defined.

(** Against C2 as it is worded: two entries of the Polymarket list share
    a market id, each is the best match of a different Kalshi market, with
    a score above the threshold, and both are committed.  The market
    (POLYMARKET, "") is in two of the returned pairs. *)
Lemma find_matches_repeats_a_market :
  exists p1 p2,
    @find_matches ascii_str duplicate_scores stable_numpy matcher
      duplicate_kalshi duplicate_poly = Returned [p1; p2] /\
    inject_Z (threshold matcher) <= match_score p1 /\
    inject_Z (threshold matcher) <= match_score p2 /\
    market_id (kalshi_market p1) <> market_id (kalshi_market p2) /\
    market_key (poly_market p1) = (POLYMARKET, EmptyString) /\
    market_key (poly_market p2) = (POLYMARKET, EmptyString) /\
    ~ NoDup (map (fun p => market_key (poly_market p)) [p1; p2]).
Proof.
  eexists. eexists. split; [vm_compute; reflexivity|].
  split; [simpl; unfold Qle; simpl; lia|].
  split; [simpl; unfold Qle; simpl; lia|].
  split; [discriminate|].
  split; [reflexivity|]. split; [reflexivity|].
  simpl. intros Hnd. apply NoDup_cons in Hnd as [Hnotin _].
  apply Hnotin. by left.
Qed.

Lemma shared_best_match_witness :
  @argsort_spec stable_numpy /\
  threshold matcher = 80%Z /\
  @score_row ascii_str scenario_D_scores
    (market KALSHI "K1" "Fed cuts rates in March?") scenario_D_poly = [90; 70] /\
  @score_row ascii_str scenario_D_scores
    (market KALSHI "K2" "Fed cuts rates by March?") scenario_D_poly = [85; 81] /\
  @find_matches ascii_str scenario_D_scores stable_numpy matcher
    scenario_D_kalshi scenario_D_poly
  = Returned
      [ {| kalshi_market := market KALSHI "K1" "Fed cuts rates in March?";
           poly_market := market POLYMARKET "P1" "Fed rate cut - March";
           match_score := 90 |} ].
Proof.
  split; [exact stable_argsort_spec|].
  split; [reflexivity|].
  split; [reflexivity|].
  split; [reflexivity|].
  apply (@shared_best_match ascii_str scenario_D_scores stable_numpy matcher
           (market KALSHI "K1" "Fed cuts rates in March?")
           (market KALSHI "K2" "Fed cuts rates by March?")
           scenario_D_poly 0 (market POLYMARKET "P1" "Fed rate cut - March")
           90 85).
  - exact stable_argsort_spec.
  - reflexivity.
  - reflexivity.
  - reflexivity.
  - reflexivity.
  - reflexivity.
  - reflexivity.
  - reflexivity.
  - reflexivity.
Defined.

End MatcherScenarios.

(** * Further properties *)

(** ** The walk: what it emits and when it stops *)

Section WalkMore.

Import ArbitrageCalculator.
Local Open Scope Q_scope.

Variable self : ArbitrageCalculator.t.
Variables yes_platform no_platform : Platform.

Abbreviation iter := (walk_iter self yes_platform no_platform).
Abbreviation passes_to := (passes self yes_platform no_platform).
Abbreviation walk := (_walk_orderbook self yes_platform no_platform).
Abbreviation level_at := (emitted_level yes_platform no_platform).
Abbreviation threshold := (min_profit_threshold self).

Lemma iter_levels_prefix (st st' : walk_state) :
  iter st = Some st' -> levels st `prefix_of` levels st'.
Proof.
  intros Hit.
  destruct (walk_iter_Some _ _ _ _ _ Hit)
    as (yp & yq & ys & np & nq & ns & _ & _ & _ & Hstep).
  cbv zeta in Hstep. destruct Hstep as (-> & _).
  by apply prefix_app_r.
Qed.

Lemma passes_levels_prefix (n : nat) (st st' : walk_state) :
  passes_to n st st' -> levels st `prefix_of` levels st'.
Proof.
  induction 1 as [st|n st st1 st2 Hit _ IH]; [done|].
  etrans; [by apply iter_levels_prefix|done].
Qed.

(** Passes from one state go one way only. *)
Lemma passes_to_exit (n k : nat) (st a b : walk_state) :
  passes_to n st a -> passes_to k st b -> iter b = None ->
  exists m, passes_to m a b.
Proof.
  intros Hn. revert k.
  induction Hn as [st|n st st1 a Hit _ IH]; intros k Hk Hend.
  - by exists k.
  - inversion Hk as [|k' ? st1' ? Hit' Hk']; subst.
    + congruence.
    + rewrite Hit in Hit'. injection Hit' as <-. by apply (IH k').
Qed.

(** Whatever has been emitted after some passes stays at the front of the
    result. *)
Lemma walk_extends (n : nat) (yes_asks no_asks : list OrderbookLevel)
    (st : walk_state) :
  passes_to n (walk_init yes_asks no_asks) st ->
  levels st `prefix_of` walk yes_asks no_asks.
Proof.
  intros Hn.
  destruct (walk_exit_state self yes_platform no_platform yes_asks no_asks)
    as (k & fin & _ & Hk & Hend & ->).
  destruct (passes_to_exit _ _ _ _ _ Hn Hk Hend) as [m Hm].
  by eapply passes_levels_prefix.
Qed.

(** X1. An empty ladder gives no level, and neither does a pair of
    ladders whose first combination is already below the threshold. *)
Theorem walk_nothing_to_take :
  (forall no_asks : list OrderbookLevel,
     _walk_orderbook self yes_platform no_platform [] no_asks = []) /\
  (forall yes_asks : list OrderbookLevel,
     _walk_orderbook self yes_platform no_platform yes_asks [] = []) /\
  (forall (y : OrderbookLevel) ys (n : OrderbookLevel) ns,
     1 - (price y + price n) < min_profit_threshold self ->
     _walk_orderbook self yes_platform no_platform (y :: ys) (n :: ns) = []).
Proof.
  assert (Hexit : forall yes_asks no_asks,
            iter (walk_init yes_asks no_asks) = None -> walk yes_asks no_asks = []).
  { intros yes_asks no_asks Hend. unfold _walk_orderbook.
    rewrite (passes_loop self yes_platform no_platform 0 _ _
               (walk_init yes_asks no_asks)); [done|constructor|done|lia]. }
  split; [|split].
  - intros no_asks. apply Hexit, walk_iter_None. by left.
  - intros yes_asks. apply Hexit, walk_iter_None. right; left.
    unfold no_rest. simpl. done.
  - intros y ys n ns Hlt. apply Hexit, walk_iter_None. right; right.
    exists (price y), (size y), (price n), (size n). done.
Qed.

(** X2. When both ladders start with a level of positive size and the
    combination of the two first prices is at or above the threshold, the
    first level of the result is that combination, for the smaller of the
    two sizes. *)
Theorem walk_first_level (y n : OrderbookLevel) (ys ns : list OrderbookLevel) :
  0 < size y -> 0 < size n ->
  threshold <= 1 - (price y + price n) ->
  exists rest,
    walk (y :: ys) (n :: ns)
    = level_at (price y) (price n) (py_min (size y) (size n)) :: rest.
Proof.
  intros Hy Hn Hth.
  destruct (iter (walk_init (y :: ys) (n :: ns))) as [st1|] eqn:Hit.
  - destruct (walk_iter_Some _ _ _ _ _ Hit)
      as (yp & yq & ys' & np & nq & ns' & Hyr & Hnr & _ & Hstep).
    unfold yes_rest, no_rest in Hyr, Hnr. simpl in Hyr, Hnr.
    injection Hyr as <- <- _. injection Hnr as <- <- _.
    cbv zeta in Hstep. destruct Hstep as (Hlv & _).
    assert (Hemit : Qltb 0 (py_min (size y) (size n)) = true).
    { apply Qltb_lt. destruct (py_min_case (size y) (size n)) as [[_ ->]|[_ ->]]; lra. }
    rewrite Hemit in Hlv. simpl in Hlv.
    assert (Hpre : levels st1 `prefix_of` walk (y :: ys) (n :: ns)).
    { apply (walk_extends 1). econstructor; [exact Hit|constructor]. }
    rewrite Hlv in Hpre. destruct Hpre as [rest ->]. by exists rest.
  - apply walk_iter_None in Hit as [Hit|[Hit|Hit]]; [done|done|].
    destruct Hit as (yp & yq & np & nq & [= <- <-] & [= <- <-] & Hlt). lra.
Qed.

Lemma rest_from_ladder_step (asks : list OrderbookLevel) (b : bool)
    (yp q q' : Q) (ys : list (Q * Q)) :
  q' <= q ->
  Forall (rest_from_ladder asks) ((yp, q) :: ys) ->
  Forall (rest_from_ladder asks) (if b then ys else (yp, q') :: ys).
Proof.
  intros Hq Hall. apply Forall_cons in Hall as [(lvl & Hin & Hp & Hs) Hys].
  destruct b; [done|]. constructor; [|done].
  exists lvl. simpl in *. split; [done|]. split; [done|]. lra.
Qed.

(** X3. Every level of the result is cut from the two ladders: its
    platforms are the ones passed in, its prices are the prices of a level
    of [yes_asks] and of a level of [no_asks], its quantity is no more
    than the size of either, and its cost, profit and dollar profit are
    the sum of the two prices, one minus that, and the quantity times
    that. *)
Theorem walk_levels_from_ladders (yes_asks no_asks : list OrderbookLevel) :
  Forall (level_from_ladders yes_platform no_platform yes_asks no_asks)
    (walk yes_asks no_asks).
Proof.
  destruct (walk_exit_state self yes_platform no_platform yes_asks no_asks)
    as (k & fin & _ & Hp & _ & ->).
  assert (Hinit : forall asks,
            Forall (rest_from_ladder asks)
              (map (fun lvl => (price lvl, size lvl)) asks)).
  { intros asks. apply Forall_map, Forall_forall. intros lvl Hin.
    exists lvl. simpl. split; [done|]. split; [done|]. lra. }
  cut (Forall (rest_from_ladder yes_asks) (yes_rest fin) /\
       Forall (rest_from_ladder no_asks) (no_rest fin) /\
       Forall (level_from_ladders yes_platform no_platform yes_asks no_asks)
         (levels fin)); [tauto|].
  eapply (passes_invariant self yes_platform no_platform
            (fun st =>
               Forall (rest_from_ladder yes_asks) (yes_rest st) /\
               Forall (rest_from_ladder no_asks) (no_rest st) /\
               Forall (level_from_ladders yes_platform no_platform yes_asks no_asks)
                 (levels st))); [|exact Hp|].
  - clear. intros s s' (Hyr & Hnr & Hlv) Hit.
    destruct (walk_iter_Some _ _ _ _ _ Hit)
      as (yp & yq & ys & np & nq & ns & Hy & Hn & _ & Hstep).
    cbv zeta in Hstep. destruct Hstep as (-> & -> & -> & _).
    rewrite Hy in Hyr. rewrite Hn in Hnr.
    pose proof (py_min_le_l yq nq) as Hl. pose proof (py_min_le_r yq nq) as Hr.
    destruct (Qltb 0 (py_min yq nq)) eqn:Hemit.
    + apply Qltb_lt in Hemit.
      split; [apply (rest_from_ladder_step _ _ _ yq); [lra|done]|].
      split; [apply (rest_from_ladder_step _ _ _ nq); [lra|done]|].
      apply Forall_app. split; [done|]. constructor; [|constructor].
      apply Forall_cons in Hyr as [(y & Hyin & Hyp & Hys) _].
      apply Forall_cons in Hnr as [(n & Hnin & Hnp & Hns) _].
      simpl in *. unfold level_from_ladders. simpl.
      split; [done|]. split; [done|]. split; [|done].
      exists y, n. repeat split; try done; lra.
    + split; [apply (rest_from_ladder_step _ _ _ yq); [lra|done]|].
      split; [apply (rest_from_ladder_step _ _ _ nq); [lra|done]|].
      by rewrite app_nil_r.
  - unfold yes_rest, no_rest, walk_init. simpl. rewrite !drop_0.
    split; [apply Hinit|]. split; [apply Hinit|constructor].
Qed.

(** X5. The result has fewer levels than the two ladders have together:
    at most [len(yes_asks) + len(no_asks) - 1]. *)
Theorem walk_length_bound (yes_asks no_asks : list OrderbookLevel) :
  (length (walk yes_asks no_asks) <= length yes_asks + length no_asks - 1)%nat.
Proof.
  destruct (walk_exit_state self yes_platform no_platform yes_asks no_asks)
    as (k & fin & _ & Hp & _ & ->).
  set (total := (length yes_asks + length no_asks)%nat).
  cut ((length (levels fin) + (length (yes_rest fin) + length (no_rest fin))
          <= total)%nat /\
       (length (levels fin) <= total - 1)%nat); [tauto|].
  eapply (passes_invariant self yes_platform no_platform
            (fun st =>
               (length (levels st) + (length (yes_rest st) + length (no_rest st))
                  <= total)%nat /\
               (length (levels st) <= total - 1)%nat)); [|exact Hp|].
  - clear. intros s s' [Hsum _] Hit.
    destruct (walk_iter_Some _ _ _ _ _ Hit)
      as (yp & yq & ys & np & nq & ns & Hy & Hn & _ & Hstep).
    cbv zeta in Hstep. destruct Hstep as (-> & -> & -> & _).
    rewrite Hy, Hn in Hsum. simpl in Hsum.
    rewrite length_app.
    assert (Hone : (length (if Qltb 0 (py_min yq nq)
                            then [level_at yp np (py_min yq nq)] else []) <= 1)%nat).
    { destruct (Qltb 0 (py_min yq nq)); simpl; lia. }
    destruct (pass_exhausts_a_head yq nq) as [E|E]; cbv zeta in E; rewrite E;
      repeat case_match; simpl in *; lia.
  - unfold yes_rest, no_rest, walk_init, total. simpl.
    rewrite !drop_0, !length_map. lia.
Qed.

End WalkMore.

(** ** The walk under two thresholds *)

Section WalkThresholds.

Import ArbitrageCalculator.
Local Open Scope Q_scope.

Variables low high : ArbitrageCalculator.t.
Variables yes_platform no_platform : Platform.
Hypothesis Hlow : min_profit_threshold low <= min_profit_threshold high.

Lemma iter_lower_threshold (st st' : walk_state) :
  walk_iter high yes_platform no_platform st = Some st' ->
  walk_iter low yes_platform no_platform st = Some st'.
Proof.
  unfold walk_iter.
  destruct (yes_remaining st !! yes_idx st) as [[yp yq]|]; [|done].
  destruct (no_remaining st !! no_idx st) as [[np nq]|]; [|done].
  destruct (Qltb (1 - (yp + np)) (min_profit_threshold high)) eqn:Hh; [done|].
  apply Qltb_ge in Hh.
  assert (Qltb (1 - (yp + np)) (min_profit_threshold low) = false) as ->.
  { apply Qltb_ge. lra. }
  done.
Qed.

Lemma passes_lower_threshold (n : nat) (st st' : walk_state) :
  passes high yes_platform no_platform n st st' ->
  passes low yes_platform no_platform n st st'.
Proof.
  induction 1 as [st|n st st1 st2 Hit _ IH]; [constructor|].
  econstructor; [by apply iter_lower_threshold|done].
Qed.

(** X6. Raising the threshold only cuts the result short: the levels
    found with the higher threshold are the first levels found with the
    lower one, whatever the ladders. *)
Theorem walk_threshold_prefix (yes_asks no_asks : list OrderbookLevel) :
  _walk_orderbook high yes_platform no_platform yes_asks no_asks
  `prefix_of` _walk_orderbook low yes_platform no_platform yes_asks no_asks.
Proof.
  destruct (walk_exit_state high yes_platform no_platform yes_asks no_asks)
    as (k & fin & _ & Hp & _ & ->).
  apply (walk_extends low yes_platform no_platform k).
  by apply passes_lower_threshold.
Qed.

Lemma rest_step_prices (b : bool) (yp q q' : Q) (ys : list (Q * Q)) (y : Q * Q) :
  y ∈ (if b then ys else (yp, q') :: ys) ->
  exists y0, y0 ∈ (yp, q) :: ys /\ y0.1 = y.1.
Proof.
  intros Hy.
  assert (y ∈ ys \/ y = (yp, q')) as [Hin| ->].
  { destruct b; [by left|]. apply elem_of_cons in Hy as [->|?]; auto. }
  - exists y. split; [by apply elem_of_cons; right|done].
  - exists (yp, q). split; [by apply elem_of_cons; left|done].
Qed.

(** Once every combination ahead is below the higher threshold, whatever
    the lower threshold still lets through is below the higher one. *)
Lemma passes_below_high (n : nat) (st st' : walk_state) :
  passes low yes_platform no_platform n st st' ->
  (forall y m, y ∈ yes_rest st -> m ∈ no_rest st ->
     1 - (y.1 + m.1) < min_profit_threshold high) ->
  exists extra,
    levels st' = levels st ++ extra /\
    Forall (fun l => profit_percentage l < min_profit_threshold high) extra.
Proof.
  induction 1 as [st|n st st1 st2 Hit _ IH]; intros Hahead.
  - exists []. by rewrite app_nil_r.
  - destruct (walk_iter_Some _ _ _ _ _ Hit)
      as (yp & yq & ys & np & nq & ns & Hy & Hn & _ & Hstep).
    cbv zeta in Hstep. destruct Hstep as (Hlv & Hy' & Hn' & _).
    destruct IH as (extra & Hextra & Hall).
    { intros y m Hyin Hmin. rewrite Hy' in Hyin. rewrite Hn' in Hmin.
      destruct (rest_step_prices _ _ yq _ _ _ Hyin) as (y0 & Hy0 & <-).
      destruct (rest_step_prices _ _ nq _ _ _ Hmin) as (m0 & Hm0 & <-).
      apply Hahead; [by rewrite Hy|by rewrite Hn]. }
    rewrite Hextra, Hlv, <- app_assoc. eexists. split; [done|].
    apply Forall_app. split; [|done].
    destruct (Qltb 0 (py_min yq nq)); constructor; [|constructor]. simpl.
    apply (Hahead (yp, yq) (np, nq)); [rewrite Hy|rewrite Hn]; by left.
Qed.

(** X7. On ladders sorted ascending by price, the result for the higher
    threshold is the result for the lower threshold with the levels below
    the higher threshold filtered out. *)
Theorem walk_threshold_filter (yes_asks no_asks : list OrderbookLevel) :
  sorted_by_price yes_asks ->
  sorted_by_price no_asks ->
  _walk_orderbook high yes_platform no_platform yes_asks no_asks
  = List.filter (fun l => Qle_bool (min_profit_threshold high) (profit_percentage l))
      (_walk_orderbook low yes_platform no_platform yes_asks no_asks).
Proof.
  intros Hy Hn.
  destruct (walk_exit_state high yes_platform no_platform yes_asks no_asks)
    as (k & fin & _ & Hp & Hend & Hhigh).
  destruct (walk_exit_state low yes_platform no_platform yes_asks no_asks)
    as (k' & fin' & _ & Hp' & Hend' & Hlo).
  destruct (walk_invariant_passes high yes_platform no_platform _ _ _ _ Hy Hn Hp)
    as (Hya & Hna & Hth & _).
  destruct (passes_to_exit low yes_platform no_platform _ _ _ _ _
              (passes_lower_threshold _ _ _ Hp) Hp' Hend') as [m Hm].
  assert (Hkeep : List.filter
            (fun l => Qle_bool (min_profit_threshold high) (profit_percentage l))
            (levels fin) = levels fin).
  { clear -Hth. induction Hth as [|l lv Hl _ IH]; simpl; [done|].
    apply Qle_bool_iff in Hl. by rewrite Hl, IH. }
  assert (Hdrop : forall extra,
            Forall (fun l => profit_percentage l < min_profit_threshold high) extra ->
            List.filter
              (fun l => Qle_bool (min_profit_threshold high) (profit_percentage l))
              extra = []).
  { induction 1 as [|l lv Hl _ IH]; simpl; [done|].
    destruct (Qle_bool (min_profit_threshold high) (profit_percentage l)) eqn:E;
      [|done].
    apply Qle_bool_iff in E. lra. }
  rewrite Hhigh, Hlo.
  apply walk_iter_None in Hend as [E|[E|Hcut]].
  - assert (Hsame : fin' = fin).
    { assert (Hnone : walk_iter low yes_platform no_platform fin = None)
        by (apply walk_iter_None; by left).
      inversion Hm as [|? ? st1 ? Hit]; [done|congruence]. }
    by rewrite Hsame, Hkeep.
  - assert (Hsame : fin' = fin).
    { assert (Hnone : walk_iter low yes_platform no_platform fin = None)
        by (apply walk_iter_None; by right; left).
      inversion Hm as [|? ? st1 ? Hit]; [done|congruence]. }
    by rewrite Hsame, Hkeep.
  - destruct (passes_below_high _ _ _ Hm) as (extra & -> & Hall).
    { destruct Hcut as (yp & yq & np & nq & Hyl & Hnl & Hlt).
      unfold yes_rest, no_rest in *.
      rewrite (drop_S _ _ _ Hyl) in Hya |- *.
      rewrite (drop_S _ _ _ Hnl) in Hna |- *.
      intros y m' Hyin Hmin.
      pose proof (ascending_head _ _ _ _ Hya Hyin).
      pose proof (ascending_head _ _ _ _ Hna Hmin).
      lra. }
    by rewrite List.filter_app, Hkeep, (Hdrop _ Hall), app_nil_r.
Qed.

End WalkThresholds.

(** ** Python's sorts *)

Section SortFacts.

Local Open Scope Q_scope.

Context {A : Type} (key : A -> Q).

Lemma insert_desc_sorted (x : A) (l : list A) :
  StronglySorted (fun a b => key b <= key a) l ->
  StronglySorted (fun a b => key b <= key a) (insert_desc key x l).
Proof.
  induction 1 as [|y l Hl IH Hall]; simpl.
  - by repeat constructor.
  - destruct (Qltb (key x) (key y)) eqn:E.
    + apply Qltb_lt in E. constructor; [done|].
      rewrite insert_desc_perm. constructor; [simpl; lra|done].
    + apply Qltb_ge in E. constructor; [by constructor|].
      constructor; [simpl; lra|].
      eapply Forall_impl; [exact Hall|]. simpl. intros z Hz. lra.
Qed.

Lemma sorted_desc_sorted (l : list A) :
  StronglySorted (fun a b => key b <= key a) (sorted_desc key l).
Proof.
  induction l as [|x l IH]; simpl; [constructor|]. by apply insert_desc_sorted.
Qed.

(** Stability: among the elements of one key value the order is kept. *)
Lemma sorted_desc_stable (v : Q) (l : list A) :
  List.filter (fun x => Qeq_bool (key x) v) (sorted_desc key l)
  = List.filter (fun x => Qeq_bool (key x) v) l.
Proof.
  assert (Hins : forall x l,
            List.filter (fun x => Qeq_bool (key x) v) (insert_desc key x l)
            = List.filter (fun x => Qeq_bool (key x) v) (x :: l)).
  { clear l. intros x l. induction l as [|y l IH]; [done|].
    simpl. destruct (Qltb (key x) (key y)) eqn:E; [|done].
    apply Qltb_lt in E. simpl. rewrite IH. simpl.
    destruct (Qeq_bool (key x) v) eqn:Ex; [|done].
    destruct (Qeq_bool (key y) v) eqn:Ey; [|done].
    apply Qeq_bool_iff in Ex, Ey. lra. }
  induction l as [|x l IH]; [done|].
  simpl sorted_desc. rewrite Hins. simpl. by rewrite IH.
Qed.

Lemma insert_asc_perm_by (x : A) (l : list A) :
  Permutation (insert_asc key x l) (x :: l).
Proof.
  induction l as [|y l IH]; simpl; [done|].
  destruct (Qltb (key y) (key x)); [|done].
  rewrite IH. apply perm_swap.
Qed.

Lemma sorted_asc_perm (l : list A) : Permutation (sorted_asc key l) l.
Proof.
  induction l as [|x l IH]; simpl; [done|].
  rewrite insert_asc_perm_by. by constructor.
Qed.

Lemma sorted_asc_sorted (l : list A) :
  StronglySorted (fun a b => key a <= key b) (sorted_asc key l).
Proof.
  induction l as [|x l IH]; simpl; [constructor|].
  induction IH as [|y l' Hl IH' Hall]; simpl.
  - by repeat constructor.
  - destruct (Qltb (key y) (key x)) eqn:E.
    + apply Qltb_lt in E. constructor; [done|].
      rewrite insert_asc_perm_by. constructor; [simpl; lra|done].
    + apply Qltb_ge in E. constructor; [by constructor|].
      constructor; [simpl; lra|].
      eapply Forall_impl; [exact Hall|]. simpl. intros z Hz. lra.
Qed.

(** The first element of a descending list has the greatest key, that of
    an ascending list the smallest. *)
Lemma sorted_head_bound (R : A -> A -> Prop) (x y : A) (l : list A) :
  StronglySorted R (x :: l) -> y ∈ l -> R x y.
Proof.
  intros Hs Hy. apply StronglySorted_inv in Hs as [_ Hall].
  rewrite Forall_forall in Hall. by apply Hall.
Qed.

End SortFacts.

(** ** Opportunities: what a calculated opportunity holds *)

Section OpportunityMore.

Import ArbitrageCalculator.
Local Open Scope Q_scope.

Variable self : ArbitrageCalculator.t.

(** What every level of a walk satisfies, sorted ladders or not. *)
Lemma walk_level_facts (yes_platform no_platform : Platform)
    (yes_asks no_asks : list OrderbookLevel) :
  Forall (fun l =>
            buy_yes_platform l = yes_platform /\
            buy_no_platform l = no_platform /\
            min_profit_threshold self <= profit_percentage l /\
            0 < quantity l /\
            max_profit_dollars l = quantity l * profit_percentage l)
    (_walk_orderbook self yes_platform no_platform yes_asks no_asks).
Proof.
  destruct (walk_exit_state self yes_platform no_platform yes_asks no_asks)
    as (k & fin & _ & Hp & _ & ->).
  eapply (passes_invariant self yes_platform no_platform
            (fun st => Forall _ (levels st))); [|exact Hp|constructor].
  intros s s' Hs Hit.
  destruct (walk_iter_Some _ _ _ _ _ Hit)
    as (yp & yq & ys & np & nq & ns & _ & _ & Hth & Hstep).
  cbv zeta in Hstep. destruct Hstep as (-> & _).
  apply Forall_app. split; [done|].
  destruct (Qltb 0 (py_min yq nq)) eqn:Hemit; [|constructor].
  apply Qltb_lt in Hemit. by repeat constructor.
Qed.

Abbreviation both_walks kalshi_book poly_book :=
  (_walk_orderbook self KALSHI POLYMARKET (yes_asks kalshi_book) (no_asks poly_book) ++
   _walk_orderbook self POLYMARKET KALSHI (yes_asks poly_book) (no_asks kalshi_book)).

Lemma calculate_opportunity_levels (pair : MarketPair)
    (kalshi_book poly_book : Orderbook) (o : ArbitrageOpportunity) :
  calculate_opportunity self pair kalshi_book poly_book = Some o ->
  opp_levels o = sorted_desc profit_percentage (both_walks kalshi_book poly_book).
Proof.
  intros Ho. apply calculate_opportunity_Some in Ho as [_ ->]. done.
Qed.

(** X8. The levels of a calculated opportunity are those of the two
    walks, rearranged into non-increasing order of profit.  Each is at or
    above the threshold, has a quantity above zero, and buys its two legs
    on different platforms. *)
Theorem calculate_opportunity_ranked (pair : MarketPair)
    (kalshi_book poly_book : Orderbook) (o : ArbitrageOpportunity) :
  calculate_opportunity self pair kalshi_book poly_book = Some o ->
  profit_descending (opp_levels o) /\
  Permutation (opp_levels o) (both_walks kalshi_book poly_book) /\
  Forall (fun l =>
            min_profit_threshold self <= profit_percentage l /\
            0 < quantity l /\
            buy_yes_platform l <> buy_no_platform l)
    (opp_levels o).
Proof.
  intros Ho. rewrite (calculate_opportunity_levels _ _ _ _ Ho).
  split; [apply sorted_desc_sorted|].
  split; [apply sorted_desc_perm|].
  rewrite sorted_desc_perm. apply Forall_app. split.
  - eapply Forall_impl; [apply walk_level_facts|].
    simpl. intros l (-> & -> & ? & ? & _). done.
  - eapply Forall_impl; [apply walk_level_facts|].
    simpl. intros l (-> & -> & ? & ? & _). done.
Qed.

(** X9. A calculated opportunity has a best level; its profit is what
    [best_profit_percentage] returns, it is at or above the threshold, and
    no level of either walk is more profitable. *)
Theorem best_level_is_best (pair : MarketPair)
    (kalshi_book poly_book : Orderbook) (o : ArbitrageOpportunity) :
  calculate_opportunity self pair kalshi_book poly_book = Some o ->
  exists best,
    best_level o = Some best /\
    best ∈ both_walks kalshi_book poly_book /\
    best_profit_percentage o = profit_percentage best /\
    min_profit_threshold self <= best_profit_percentage o /\
    forall l, l ∈ both_walks kalshi_book poly_book ->
      profit_percentage l <= best_profit_percentage o.
Proof.
  intros Ho.
  pose proof (calculate_opportunity_levels _ _ _ _ Ho) as Hlv.
  pose proof (sorted_desc_sorted profit_percentage (both_walks kalshi_book poly_book))
    as Hsorted.
  pose proof (sorted_desc_perm profit_percentage (both_walks kalshi_book poly_book))
    as Hperm.
  apply calculate_opportunity_Some in Ho as [Hne _].
  unfold best_level, best_profit_percentage. rewrite Hlv.
  destruct (sorted_desc profit_percentage (both_walks kalshi_book poly_book))
    as [|best lv] eqn:E.
  { apply Permutation_nil in Hperm. done. }
  exists best.
  assert (Hin : best ∈ both_walks kalshi_book poly_book).
  { rewrite <- Hperm. by left. }
  split; [done|]. split; [done|]. split; [done|].
  split.
  - apply elem_of_app in Hin as [Hin|Hin].
    + pose proof (walk_level_facts KALSHI POLYMARKET
                    (yes_asks kalshi_book) (no_asks poly_book)) as Hall.
      rewrite Forall_forall in Hall. by destruct (Hall _ Hin) as (_ & _ & ? & _).
    + pose proof (walk_level_facts POLYMARKET KALSHI
                    (yes_asks poly_book) (no_asks kalshi_book)) as Hall.
      rewrite Forall_forall in Hall. by destruct (Hall _ Hin) as (_ & _ & ? & _).
  - intros l Hl. rewrite <- Hperm in Hl.
    apply elem_of_cons in Hl as [->|Hl]; [lra|].
    by apply (sorted_head_bound _ best l lv Hsorted).
Qed.

Lemma calculated_above_threshold (pair : MarketPair)
    (kalshi_book poly_book : Orderbook) (o : ArbitrageOpportunity) :
  calculate_opportunity self pair kalshi_book poly_book = Some o ->
  min_profit_threshold self <= best_profit_percentage o.
Proof.
  intros Ho.
  pose proof (calculate_opportunity_levels _ _ _ _ Ho) as Hlv.
  pose proof (sorted_desc_perm profit_percentage (both_walks kalshi_book poly_book))
    as Hperm.
  apply calculate_opportunity_Some in Ho as [Hne _].
  rewrite <- Hlv in Hperm. unfold best_profit_percentage.
  destruct (opp_levels o) as [|best lv].
  { apply Permutation_nil in Hperm. done. }
  assert (Hin : best ∈ both_walks kalshi_book poly_book).
  { rewrite <- Hperm. by left. }
  apply elem_of_app in Hin as [Hin|Hin].
  - pose proof (walk_level_facts KALSHI POLYMARKET
                  (yes_asks kalshi_book) (no_asks poly_book)) as Hall.
    rewrite Forall_forall in Hall. by destruct (Hall _ Hin) as (_ & _ & ? & _).
  - pose proof (walk_level_facts POLYMARKET KALSHI
                  (yes_asks poly_book) (no_asks kalshi_book)) as Hall.
    rewrite Forall_forall in Hall. by destruct (Hall _ Hin) as (_ & _ & ? & _).
Qed.

(** X12. The opportunities come out in non-increasing order of best
    profit, each with a best profit at or above the threshold; among
    opportunities of equal best profit the order of their pairs is
    kept. *)
Theorem find_all_opportunities_ranked (pairs : list MarketPair)
    (kalshi_orderbooks poly_orderbooks : gmap string Orderbook) :
  let out := find_all_opportunities self pairs kalshi_orderbooks poly_orderbooks in
  StronglySorted
    (fun a b => best_profit_percentage b <= best_profit_percentage a) out /\
  Forall (fun o => min_profit_threshold self <= best_profit_percentage o) out /\
  forall v,
    List.filter (fun o => Qeq_bool (best_profit_percentage o) v) out
    = List.filter (fun o => Qeq_bool (best_profit_percentage o) v)
        (omap (opportunity_of_pair self kalshi_orderbooks poly_orderbooks) pairs).
Proof.
  cbv zeta. unfold find_all_opportunities. rewrite collect_opportunities. simpl.
  split; [apply sorted_desc_sorted|].
  split; [|intros v; apply sorted_desc_stable].
  rewrite sorted_desc_perm. apply Forall_forall. intros o Ho.
  apply list_elem_of_omap in Ho as (pair & _ & Ho).
  unfold opportunity_of_pair in Ho.
  destruct (kalshi_orderbooks !! market_id (kalshi_market pair)) as [kb|]; [|done].
  destruct (poly_orderbooks !! market_id (poly_market pair)) as [pb|]; [|done].
  by eapply calculated_above_threshold.
Qed.

End OpportunityMore.

(** ** The fee model *)

Section FeeMore.

Import FeeCalculator.
Local Open Scope Q_scope.

Lemma cents_le (x y : Q) :
  x <= y -> inject_Z (Qceiling x) / 100 <= inject_Z (Qceiling y) / 100.
Proof.
  intros Hxy. apply Qceiling_resp_le in Hxy. rewrite Zle_Qle in Hxy.
  apply Qle_shift_div_l; [reflexivity|].
  unfold Qdiv. rewrite <- Qmult_assoc, (Qmult_comm (/ 100)), Qmult_inv_r by discriminate.
  lra.
Qed.

(** X14. At a price in [0, 1] the Kalshi fee does not fall when the
    number of contracts grows. *)
Theorem kalshi_taker_fee_monotone (contracts1 contracts2 : Z) (price : Q) :
  (contracts1 <= contracts2)%Z -> 0 <= price <= 1 ->
  kalshi_taker_fee contracts1 price <= kalshi_taker_fee contracts2 price.
Proof.
  intros Hc [Hp0 Hp1]. unfold kalshi_taker_fee, math_ceil. apply cents_le.
  unfold KALSHI_TAKER_COEFFICIENT.
  assert (Hc' : 0 <= inject_Z contracts2 - inject_Z contracts1).
  { rewrite Zle_Qle in Hc. lra. }
  assert (Hpp : 0 <= price * (1 - price)) by (apply Qmult_le_0_compat; lra).
  assert (Hm : 0 <= (inject_Z contracts2 - inject_Z contracts1) * (price * (1 - price)))
    by (by apply Qmult_le_0_compat).
  lra.
Qed.

(** X15. [estimate_total_fees] never charges the Polymarket leg; when
    the two legs are on different platforms the Kalshi fee is the taker
    fee at the price of the leg bought on Kalshi. *)
Theorem estimate_total_fees_cross_venue (buy_yes_platform : Platform)
    (buy_yes_price : Q) (buy_no_platform : Platform) (buy_no_price : Q)
    (contracts : Z) :
  buy_yes_platform <> buy_no_platform ->
  (estimate_total_fees buy_yes_platform buy_yes_price
     buy_no_platform buy_no_price contracts).2 == 0 /\
  (estimate_total_fees buy_yes_platform buy_yes_price
     buy_no_platform buy_no_price contracts).1
  == kalshi_taker_fee contracts
       (if decide (buy_yes_platform = KALSHI) then buy_yes_price else buy_no_price).
Proof.
  intros Hne. unfold estimate_total_fees, polymarket_taker_fee, POLY_TAKER_RATE.
  destruct buy_yes_platform, buy_no_platform; try done; simpl; split; ring.
Qed.

End FeeMore.

(** ** The matcher: which pairs are committed *)

Section MatcherMore.

Import FuzzyMatcher.
Local Open Scope Q_scope.

Context `{PyStr} `{RapidFuzz} `{Numpy}.

Variable self : FuzzyMatcher.t.

Lemma along_rows_Forall2 {A : Type} (f : list Q -> outcome A)
    (rows : list (list Q)) (vs : list A) :
  along_rows f rows = Returned vs ->
  Forall2 (fun r v => f r = Returned v) rows vs.
Proof.
  revert vs. induction rows as [|r rows IH]; intros vs; simpl.
  - intros [= <-]. constructor.
  - destruct (f r) as [v|] eqn:Hv; [|done]. simpl.
    destruct (along_rows f rows) as [vs'|]; [|done]. simpl.
    intros [= <-]. constructor; [done|]. by apply IH.
Qed.

Lemma cdist_score_rows (kalshi_markets poly_markets : list UnifiedMarket) :
  cdist token_sort_ratio (map normalized_title kalshi_markets)
    (map normalized_title poly_markets)
  = map (fun k => score_row k poly_markets) kalshi_markets.
Proof. unfold cdist, score_row. by rewrite map_map. Qed.

Lemma sorted_of_lookups {A : Type} (R : A -> A -> Prop) (l : list A) :
  (forall p q x y, (p < q)%nat -> l !! p = Some x -> l !! q = Some y -> R x y) ->
  StronglySorted R l.
Proof.
  induction l as [|x l IH]; intros Hl; constructor.
  - apply IH. intros p q a b Hpq Ha Hb. by apply (Hl (S p) (S q)); [lia|..].
  - apply Forall_forall. intros y Hy.
    apply list_elem_of_lookup in Hy as [q Hq].
    by apply (Hl 0%nat (S q)); [lia|..].
Qed.

Lemma sorted_rev {A : Type} (R : A -> A -> Prop) (l : list A) :
  StronglySorted R l -> StronglySorted (flip R) (rev l).
Proof.
  induction 1 as [|x l _ IH Hall]; simpl; [constructor|].
  apply StronglySorted_app_2; [|done|by repeat constructor].
  intros a b Ha Hb. apply list_elem_of_singleton in Hb as ->.
  rewrite Forall_forall in Hall. apply Hall.
  by apply list_elem_of_In, in_rev, list_elem_of_In.
Qed.

(** The order in which the loop visits the Kalshi positions: best scores
    first. *)
Lemma sorted_indices_desc (best_scores : list Q) :
  argsort_spec ->
  StronglySorted (no_better best_scores) (rev (argsort best_scores)).
Proof.
  intros Hspec. destruct (Hspec best_scores) as [_ Hord].
  apply (sorted_rev (fun a b => no_better best_scores b a)).
  apply sorted_of_lookups. intros p q i j Hpq Hi Hj sa sb Ha Hb.
  apply (Hord p q i j sb sa); [lia|done..].
Qed.

(** The loop, step by step: the committed pairs with the positions they
    come from, in non-increasing order of score, none below the
    threshold; the set of matched positions is that of the pairs; and
    every position visited whose best score reaches the threshold has its
    best Polymarket position in a pair that scores no less. *)
Lemma match_loop_trace (kalshi_markets poly_markets : list UnifiedMarket)
    (best_poly_indices : list nat) (best_scores : list Q)
    (indices visited : list nat) (st : loop_state) (idxs : list (nat * nat)) :
  length best_poly_indices = length kalshi_markets ->
  length best_scores = length kalshi_markets ->
  Forall (fun j => (j < length poly_markets)%nat) best_poly_indices ->
  Forall (fun i => (i < length kalshi_markets)%nat) indices ->
  StronglySorted (no_better best_scores) indices ->
  Forall2 (pair_at kalshi_markets poly_markets best_poly_indices best_scores)
    idxs (matches st) ->
  (forall j, j ∈ matched_poly_indices st <-> j ∈ idxs.*2) ->
  StronglySorted (fun a b => match_score b <= match_score a) (matches st) ->
  Forall (fun p => inject_Z (threshold self) <= match_score p) (matches st) ->
  (forall p i s, p ∈ matches st -> i ∈ indices ->
     best_scores !! i = Some s -> s <= match_score p) ->
  (forall i j s, i ∈ visited ->
     best_poly_indices !! i = Some j -> best_scores !! i = Some s ->
     inject_Z (threshold self) <= s ->
     exists a i' p, idxs !! a = Some (i', j) /\ matches st !! a = Some p /\
                    s <= match_score p) ->
  exists st' idxs',
    match_loop self kalshi_markets poly_markets best_poly_indices best_scores
      st indices = Returned st' /\
    Forall2 (pair_at kalshi_markets poly_markets best_poly_indices best_scores)
      idxs' (matches st') /\
    StronglySorted (fun a b => match_score b <= match_score a) (matches st') /\
    Forall (fun p => inject_Z (threshold self) <= match_score p) (matches st') /\
    (forall i j s, i ∈ visited ++ indices ->
       best_poly_indices !! i = Some j -> best_scores !! i = Some s ->
       inject_Z (threshold self) <= s ->
       exists a i' p, idxs' !! a = Some (i', j) /\ matches st' !! a = Some p /\
                      s <= match_score p).
Proof.
  intros Hlen1 Hlen2 Hcols.
  revert visited st idxs.
  induction indices as [|i indices IH];
    intros visited st idxs Hrange Hsorted Hpairs Hset Hdesc Hth Hrest Hcover; simpl.
  - exists st, idxs. rewrite app_nil_r. done.
  - apply Forall_cons in Hrange as [Hi Hrange].
    apply StronglySorted_inv in Hsorted as [Hsorted Hafter].
    destruct (lookup_lt_is_Some_2 best_poly_indices i) as [j Hj]; [lia|].
    destruct (lookup_lt_is_Some_2 best_scores i) as [score Hs]; [lia|].
    destruct (lookup_lt_is_Some_2 kalshi_markets i) as [k Hk]; [lia|].
    assert (Hjlt : (j < length poly_markets)%nat).
    { rewrite Forall_forall in Hcols. apply Hcols.
      by eapply list_elem_of_lookup_2. }
    destruct (lookup_lt_is_Some_2 poly_markets j) as [p Hp]; [lia|].
    rewrite (match_step_Returned self _ _ _ _ st i j score k p Hj Hs Hk Hp). simpl.
    replace (visited ++ i :: indices) with ((visited ++ [i]) ++ indices)
      by (by rewrite <- app_assoc).
    assert (Hlen : length idxs = length (matches st)) by (by eapply Forall2_length).
    destruct (Qle_bool (inject_Z (threshold self)) score) eqn:Hscore; simpl.
    + apply Qle_bool_iff in Hscore.
      destruct (bool_decide (j ∈ matched_poly_indices st)) eqn:Hmatched; simpl.
      * apply bool_decide_eq_true in Hmatched.
        apply (IH (visited ++ [i]) st idxs); try done.
        { intros q i2 s2 Hq Hi2. apply Hrest; [done|by right]. }
        intros i2 j2 s2 Hi2 Hj2 Hs2 Hth2.
        apply elem_of_app in Hi2 as [Hi2|Hi2]; [by eapply Hcover|].
        apply list_elem_of_singleton in Hi2 as ->.
        rewrite Hj in Hj2. rewrite Hs in Hs2. injection Hj2 as <-. injection Hs2 as <-.
        apply Hset, list_elem_of_fmap in Hmatched as ([i' j'] & Hj' & Hin).
        simpl in Hj'. subst j'.
        apply list_elem_of_lookup in Hin as [a Ha].
        destruct (Forall2_lookup_l _ _ _ _ _ Hpairs Ha) as (q & Hq & _).
        exists a, i', q. split; [done|]. split; [done|].
        apply (Hrest q i score); [by eapply list_elem_of_lookup_2|by left|done].
      * apply bool_decide_eq_false in Hmatched.
        apply (IH (visited ++ [i]) _ (idxs ++ [(i, j)])); try done; simpl.
        -- apply Forall2_app; [done|]. by repeat constructor.
        -- intros j2. rewrite fmap_app, elem_of_app, elem_of_union, Hset.
           simpl. rewrite list_elem_of_singleton, elem_of_singleton. done.
        -- apply StronglySorted_app_2; [|done|by repeat constructor].
           intros q1 q2 Hq1 Hq2. apply list_elem_of_singleton in Hq2 as ->. simpl.
           apply (Hrest q1 i score); [done|by left|done].
        -- apply Forall_app. split; [done|]. by repeat constructor.
        -- intros q i2 s2 Hq Hi2 Hs2.
           apply elem_of_app in Hq as [Hq|Hq]; [apply (Hrest q i2); [done|by right|done]|].
           apply list_elem_of_singleton in Hq as ->. simpl.
           rewrite Forall_forall in Hafter. by apply (Hafter i2 Hi2 score s2).
        -- intros i2 j2 s2 Hi2 Hj2 Hs2 Hth2.
           apply elem_of_app in Hi2 as [Hi2|Hi2].
           ++ destruct (Hcover i2 j2 s2 Hi2 Hj2 Hs2 Hth2) as (a & i' & q & Ha & Hq & Hle).
              exists a, i', q. split; [by apply lookup_app_l_Some|].
              split; [by apply lookup_app_l_Some|done].
           ++ apply list_elem_of_singleton in Hi2 as ->.
              rewrite Hj in Hj2. rewrite Hs in Hs2.
              injection Hj2 as <-. injection Hs2 as <-.
              exists (length idxs), i, {| kalshi_market := k; poly_market := p;
                                          match_score := score |}.
              split; [by rewrite list_lookup_middle|].
              split; [by rewrite list_lookup_middle|]. simpl. lra.
    + apply (IH (visited ++ [i]) st idxs); try done.
      { intros q i2 s2 Hq Hi2. apply Hrest; [done|by right]. }
      intros i2 j2 s2 Hi2 Hj2 Hs2 Hth2.
      apply elem_of_app in Hi2 as [Hi2|Hi2]; [by eapply Hcover|].
      apply list_elem_of_singleton in Hi2 as ->.
      rewrite Hs in Hs2. injection Hs2 as <-.
      assert (Qle_bool (inject_Z (threshold self)) score = true)
        by (by apply Qle_bool_iff).
      congruence.
Qed.

(** [find_matches] on two non-empty lists, with what the loop went
    through: the best position and best score of every Kalshi market, the
    pairs and the positions they were committed for. *)
Lemma find_matches_trace (kalshi_markets poly_markets : list UnifiedMarket) :
  argsort_spec ->
  kalshi_markets <> [] -> poly_markets <> [] ->
  exists best_poly_indices best_scores pairs idxs,
    Forall2 (fun k j => np_argmax (score_row k poly_markets) = Returned j)
      kalshi_markets best_poly_indices /\
    Forall2 (fun k s => np_max (score_row k poly_markets) = Returned s)
      kalshi_markets best_scores /\
    find_matches self kalshi_markets poly_markets = Returned pairs /\
    Forall2 (pair_at kalshi_markets poly_markets best_poly_indices best_scores)
      idxs pairs /\
    StronglySorted (fun a b => match_score b <= match_score a) pairs /\
    Forall (fun p => inject_Z (threshold self) <= match_score p) pairs /\
    (forall i j s,
       best_poly_indices !! i = Some j -> best_scores !! i = Some s ->
       inject_Z (threshold self) <= s ->
       exists a i' p, idxs !! a = Some (i', j) /\ pairs !! a = Some p /\
                      s <= match_score p).
Proof.
  intros Hspec Hk Hp.
  assert (Hpm : (0 < length poly_markets)%nat).
  { destruct poly_markets; [done|simpl; lia]. }
  assert (Hbody : find_matches self kalshi_markets poly_markets
                  = match_markets self kalshi_markets poly_markets).
  { unfold find_matches. destruct kalshi_markets; [done|].
    by destruct poly_markets. }
  rewrite Hbody. unfold match_markets. rewrite cdist_score_rows.
  set (scores := map (fun k => score_row k poly_markets) kalshi_markets).
  assert (Hrows : Forall (fun r : list Q => length r = length poly_markets) scores).
  { apply Forall_map, Forall_forall. intros k _. unfold score_row.
    by rewrite !length_map. }
  assert (Hne : Forall (fun r : list Q => r <> []) scores).
  { eapply Forall_impl; [exact Hrows|]. intros r Hr ->. simpl in Hr. lia. }
  destruct (along_rows_Returned np_argmax
              (fun j => (j < length poly_markets)%nat) scores)
    as (bpi & Hbpi & Hbpi_len & Hbpi_lt).
  { rewrite Forall_forall in Hne, Hrows. apply Forall_forall. intros r Hr.
    destruct (np_argmax_Returned r (Hne r Hr)) as (j & Hj & Hlt).
    exists j. split; [done|]. by rewrite (Hrows r Hr) in Hlt. }
  destruct (along_rows_Returned np_max (fun _ => True) scores)
    as (bs & Hbs & Hbs_len & _).
  { eapply Forall_impl; [exact Hne|]. intros r Hr.
    destruct (np_max_Returned r Hr) as (v & Hv). by exists v. }
  unfold scores in Hbpi_len, Hbs_len. rewrite length_map in Hbpi_len, Hbs_len.
  rewrite Hbpi, Hbs. simpl.
  destruct (argsort_indices bs Hspec) as [_ Hrange].
  destruct (Hspec bs) as [Hperm _].
  destruct (match_loop_trace kalshi_markets poly_markets bpi bs
              (rev (argsort bs)) [] {| matches := []; matched_poly_indices := ∅ |} [])
    as (st' & idxs & -> & Hpairs & Hdesc & Hth & Hcover); try done.
  all: try (simpl; constructor).
  - eapply Forall_impl; [exact Hrange|]. simpl. intros i Hi. lia.
  - by apply sorted_indices_desc.
  - intros Hin. by apply elem_of_empty in Hin.
  - intros Hin. by apply elem_of_nil in Hin.
  - intros p i s Hin. by apply elem_of_nil in Hin.
  - intros i j s Hin. by apply elem_of_nil in Hin.
  - simpl. exists bpi, bs, (matches st'), idxs.
    split.
    { apply along_rows_Forall2 in Hbpi. unfold scores in Hbpi.
      change (map ?f ?l) with (f <$> l) in Hbpi. by apply Forall2_fmap_l in Hbpi. }
    split.
    { apply along_rows_Forall2 in Hbs. unfold scores in Hbs.
      change (map ?f ?l) with (f <$> l) in Hbs. by apply Forall2_fmap_l in Hbs. }
    split; [done|]. split; [done|]. split; [done|]. split; [done|].
    intros i j s Hj Hs Hle. apply (Hcover i j s); [|done..].
    simpl.
    assert (Hrev : Permutation (rev (argsort bs)) (seq 0 (length bs))).
    { rewrite <- Hperm. symmetry. apply Permutation_rev. }
    rewrite Hrev. apply elem_of_seq. apply lookup_lt_Some in Hs. lia.
Qed.

(** X17. The pairs come out in non-increasing order of score. *)
Theorem find_matches_sorted (kalshi_markets poly_markets : list UnifiedMarket) :
  argsort_spec ->
  exists pairs,
    find_matches self kalshi_markets poly_markets = Returned pairs /\
    StronglySorted (fun a b => match_score b <= match_score a) pairs.
Proof.
  intros Hspec.
  destruct (decide (kalshi_markets = [])) as [->|Hk].
  { exists []. split; [done|constructor]. }
  destruct (decide (poly_markets = [])) as [->|Hp].
  { exists []. split; [|constructor]. by destruct kalshi_markets. }
  destruct (find_matches_trace kalshi_markets poly_markets Hspec Hk Hp)
    as (bpi & bs & pairs & idxs & _ & _ & Hret & _ & Hdesc & _).
  by exists pairs.
Qed.

(** X18. A Kalshi market whose best score reaches the threshold never
    leaves its best Polymarket market unmatched: that market is in a
    returned pair, with this Kalshi market or with one that scores at
    least as much. *)
Theorem find_matches_claims_best (kalshi_markets poly_markets : list UnifiedMarket)
    (i j : nat) (k : UnifiedMarket) (s : Q) :
  argsort_spec ->
  kalshi_markets !! i = Some k ->
  np_argmax (score_row k poly_markets) = Returned j ->
  np_max (score_row k poly_markets) = Returned s ->
  inject_Z (threshold self) <= s ->
  exists pairs p,
    find_matches self kalshi_markets poly_markets = Returned pairs /\
    p ∈ pairs /\
    poly_markets !! j = Some (poly_market p) /\
    s <= match_score p.
Proof.
  intros Hspec Hk Harg Hmax Hth.
  assert (Hkne : kalshi_markets <> []) by (by intros ->).
  assert (Hpne : poly_markets <> []).
  { intros ->. done. }
  destruct (find_matches_trace kalshi_markets poly_markets Hspec Hkne Hpne)
    as (bpi & bs & pairs & idxs & Hbpi & Hbs & Hret & Hpairs & _ & _ & Hcover).
  destruct (Forall2_lookup_l _ _ _ _ _ Hbpi Hk) as (j' & Hj' & Harg').
  destruct (Forall2_lookup_l _ _ _ _ _ Hbs Hk) as (s' & Hs' & Hmax').
  rewrite Harg in Harg'. injection Harg' as <-.
  rewrite Hmax in Hmax'. injection Hmax' as <-.
  destruct (Hcover i j s Hj' Hs' Hth) as (a & i' & p & Ha & Hp & Hle).
  exists pairs, p. split; [done|].
  split; [by eapply list_elem_of_lookup_2|].
  destruct (Forall2_lookup_lr _ _ _ _ _ _ Hpairs Ha Hp) as (_ & Hpm & _).
  done.
Qed.

(** X19. On two non-empty lists the result is empty exactly when the
    best score of every Kalshi market is below the threshold. *)
Theorem find_matches_none (kalshi_markets poly_markets : list UnifiedMarket) :
  argsort_spec ->
  kalshi_markets <> [] -> poly_markets <> [] ->
  find_matches self kalshi_markets poly_markets = Returned [] <->
  forall k s, k ∈ kalshi_markets ->
    np_max (score_row k poly_markets) = Returned s ->
    s < inject_Z (threshold self).
Proof.
  intros Hspec Hk Hp.
  destruct (find_matches_trace kalshi_markets poly_markets Hspec Hk Hp)
    as (bpi & bs & pairs & idxs & Hbpi & Hbs & Hret & Hpairs & _ & Hth & Hcover).
  rewrite Hret. split.
  - intros [= ->] k s Hin Hmax.
    destruct (Qlt_le_dec s (inject_Z (threshold self))) as [|Hle]; [done|].
    apply list_elem_of_lookup in Hin as [i Hi].
    destruct (Forall2_lookup_l _ _ _ _ _ Hbpi Hi) as (j & Hj & _).
    destruct (Forall2_lookup_l _ _ _ _ _ Hbs Hi) as (s' & Hs' & Hmax').
    rewrite Hmax in Hmax'. injection Hmax' as <-.
    destruct (Hcover i j s Hj Hs' Hle) as (a & i' & p & _ & Hp' & _).
    done.
  - intros Hbelow. destruct pairs as [|p pairs]; [done|].
    apply Forall_cons in Hth as [Hth _].
    apply Forall2_cons_inv_r in Hpairs as ([i j] & idxs' & (Hkm & _ & _ & Hs) & _ & _).
    simpl in *.
    destruct (Forall2_lookup_l _ _ _ _ _ Hbs Hkm) as (s' & Hs' & Hmax).
    rewrite Hs in Hs'. injection Hs' as <-.
    assert (match_score p < inject_Z (threshold self)).
    { eapply Hbelow; [|done]. by eapply list_elem_of_lookup_2. }
    lra.
Qed.

Lemma bounded_nodup_length (l : list nat) (n : nat) :
  NoDup l -> Forall (fun i => (i < n)%nat) l -> (length l <= n)%nat.
Proof.
  intros Hnd Hall.
  assert (Hsub : l ⊆+ seq 0 n).
  { apply NoDup_submseteq; [done|].
    intros i Hi. rewrite Forall_forall in Hall. apply elem_of_seq.
    specialize (Hall i Hi). lia. }
  apply submseteq_length in Hsub. by rewrite length_seq in Hsub.
Qed.

(** X20. There are never more pairs than markets in the shorter of the
    two lists. *)
Theorem find_matches_count (kalshi_markets poly_markets : list UnifiedMarket) :
  argsort_spec ->
  exists pairs,
    find_matches self kalshi_markets poly_markets = Returned pairs /\
    (length pairs <= length kalshi_markets)%nat /\
    (length pairs <= length poly_markets)%nat.
Proof.
  intros Hspec.
  destruct (find_matches_indices self kalshi_markets poly_markets Hspec)
    as (pairs & idxs & Hret & Hpairs & _ & Hnd1 & Hnd2).
  exists pairs. split; [done|].
  rewrite <- (Forall2_length _ _ _ Hpairs).
  split.
  - rewrite <- (length_fmap fst). apply bounded_nodup_length; [done|].
    apply Forall_fmap, Forall_forall. intros ij Hij.
    apply list_elem_of_lookup in Hij as [a Ha].
    destruct (Forall2_lookup_l _ _ _ _ _ Hpairs Ha) as (p & _ & Hk & _).
    simpl. by eapply lookup_lt_Some.
  - rewrite <- (length_fmap snd). apply bounded_nodup_length; [done|].
    apply Forall_fmap, Forall_forall. intros ij Hij.
    apply list_elem_of_lookup in Hij as [a Ha].
    destruct (Forall2_lookup_l _ _ _ _ _ Hpairs Ha) as (p & _ & _ & Hp).
    simpl. by eapply lookup_lt_Some.
Qed.

End MatcherMore.

(** ** The identifier of a pair *)

Section PairId.

Lemma append_colon_inj (s1 s2 t1 t2 : string) :
  has_char ":" s1 = false -> has_char ":" s2 = false ->
  (s1 +:+ ":" +:+ t1 = s2 +:+ ":" +:+ t2)%string ->
  s1 = s2 /\ t1 = t2.
Proof.
  revert s2. induction s1 as [|c s1 IH]; intros s2 H1 H2 Heq.
  - destruct s2 as [|c2 s2]; simpl in *.
    + by simplify_eq.
    + simplify_eq.
  - destruct s2 as [|c2 s2]; simpl in *.
    + simplify_eq.
    + injection Heq as -> Heq.
      apply orb_false_iff in H1 as [_ H1]. apply orb_false_iff in H2 as [_ H2].
      destruct (IH s2 H1 H2 Heq) as [-> ->]. done.
Qed.

(** X21. As long as the Kalshi market ids hold no colon, [pair_id]
    tells pairs of different markets apart: equal ids mean the same two
    market ids. *)
Theorem pair_id_injective (p1 p2 : MarketPair) :
  has_char ":" (market_id (kalshi_market p1)) = false ->
  has_char ":" (market_id (kalshi_market p2)) = false ->
  pair_id p1 = pair_id p2 ->
  market_id (kalshi_market p1) = market_id (kalshi_market p2) /\
  market_id (poly_market p1) = market_id (poly_market p2).
Proof. intros H1 H2 Heq. by apply append_colon_inj. Qed.

End PairId.

(** ** The order books that the clients build *)

Section ClientBooks.

Import ArbitrageCalculator.
Local Open Scope Q_scope.

Context `{PyFloat}.

Lemma foldl_collect {A B : Type} (f : A -> option B) (acc : list B) (l : list A) :
  foldl (fun acc x => match f x with Some y => acc ++ [y] | None => acc end) acc l
  = acc ++ omap f l.
Proof.
  revert acc. induction l as [|x l IH]; intros acc; simpl.
  - by rewrite app_nil_r.
  - rewrite IH. destruct (f x); [|done]. by rewrite <- app_assoc.
Qed.

Lemma first_price_asc (l : list OrderbookLevel) :
  match first_price (sorted_asc price l) with
  | None => l = []
  | Some a => (exists x, x ∈ l /\ price x = a) /\ forall y, y ∈ l -> a <= price y
  end.
Proof.
  pose proof (sorted_asc_perm price l) as Hperm.
  pose proof (sorted_asc_sorted price l) as Hsorted.
  unfold first_price. destruct (sorted_asc price l) as [|x l'].
  - by apply Permutation_nil in Hperm.
  - split.
    + exists x. split; [|done]. rewrite <- Hperm. by left.
    + intros y Hy. rewrite <- Hperm in Hy.
      apply elem_of_cons in Hy as [->|Hy]; [lra|].
      by apply (sorted_head_bound _ x y l' Hsorted).
Qed.

Lemma first_price_desc (l : list OrderbookLevel) :
  match first_price (sorted_desc price l) with
  | None => l = []
  | Some a => (exists x, x ∈ l /\ price x = a) /\ forall y, y ∈ l -> price y <= a
  end.
Proof.
  pose proof (sorted_desc_perm price l) as Hperm.
  pose proof (sorted_desc_sorted price l) as Hsorted.
  unfold first_price. destruct (sorted_desc price l) as [|x l'].
  - by apply Permutation_nil in Hperm.
  - split.
    + exists x. split; [|done]. rewrite <- Hperm. by left.
    + intros y Hy. rewrite <- Hperm in Hy.
      apply elem_of_cons in Hy as [->|Hy]; [lra|].
      by apply (sorted_head_bound _ x y l' Hsorted).
Qed.

(** X23. In a Kalshi book the asks of a side are the bids of the other
    side seen from across: the same sizes, at one minus the price. *)
Theorem kalshi_asks_mirror_bids (ticker : string) (data : KalshiClient.reply) :
  let b := KalshiClient.get_orderbook ticker data in
  Permutation (yes_asks b) (KalshiClient.asks_of (no_bids b)) /\
  Permutation (no_asks b) (KalshiClient.asks_of (yes_bids b)).
Proof.
  cbv zeta. unfold KalshiClient.get_orderbook. simpl.
  split; rewrite sorted_asc_perm; unfold KalshiClient.asks_of;
    apply Permutation_map; symmetry; apply sorted_desc_perm.
Qed.

Lemma best_ask_of_bids (bids : list OrderbookLevel) :
  match first_price (sorted_asc price (KalshiClient.asks_of bids)),
        first_price (sorted_desc price bids) with
  | Some ask, Some bid => ask == 1 - bid
  | None, None => True
  | _, _ => False
  end.
Proof.
  pose proof (first_price_asc (KalshiClient.asks_of bids)) as Ha.
  pose proof (first_price_desc bids) as Hb.
  destruct (first_price (sorted_asc price (KalshiClient.asks_of bids))) as [ask|];
    destruct (first_price (sorted_desc price bids)) as [bid|].
  - destruct Ha as [(x & Hx & <-) Hmin]. destruct Hb as [(y & Hy & <-) Hmax].
    unfold KalshiClient.asks_of in Hx.
    apply list_elem_of_In, in_map_iff in Hx as (x0 & <- & Hx0). simpl.
    apply list_elem_of_In in Hx0. pose proof (Hmax x0 Hx0) as Hle.
    assert (Hin : {| price := 1 - price y; size := size y |}
                  ∈ KalshiClient.asks_of bids).
    { apply list_elem_of_In, in_map_iff. exists y. split; [done|].
      by apply list_elem_of_In. }
    pose proof (Hmin _ Hin) as Hge. simpl in Hge. lra.
  - subst bids. destruct Ha as [(x & Hx & _) _]. by apply elem_of_nil in Hx.
  - destruct Hb as [(y & Hy & _) _]. destruct bids; [by apply elem_of_nil in Hy|done].
  - done.
Qed.

(** X24. In a Kalshi book the best YES ask is one minus the best NO bid
    and the best NO ask is one minus the best YES bid; a side has no ask
    exactly when the other side has no bid. *)
Theorem kalshi_best_ask (ticker : string) (data : KalshiClient.reply) :
  let b := KalshiClient.get_orderbook ticker data in
  match best_yes_ask b, best_no_bid b with
  | Some ask, Some bid => ask == 1 - bid
  | None, None => True
  | _, _ => False
  end /\
  match best_no_ask b, best_yes_bid b with
  | Some ask, Some bid => ask == 1 - bid
  | None, None => True
  | _, _ => False
  end.
Proof.
  cbv zeta. unfold best_yes_ask, best_no_bid, best_no_ask, best_yes_bid.
  unfold KalshiClient.get_orderbook. simpl. split; apply best_ask_of_bids.
Qed.

Lemma levels_of_elem (entries : list PolymarketClient.entry) (lvl : OrderbookLevel) :
  lvl ∈ PolymarketClient.levels_of entries <->
  exists b, b ∈ entries /\ PolymarketClient.level_of b = Some lvl.
Proof.
  unfold PolymarketClient.levels_of.
  rewrite (foldl_collect PolymarketClient.level_of [] entries). simpl.
  apply list_elem_of_omap.
Qed.

(** X25. Each side of a Polymarket book holds the levels of the entries
    of its reply that parse, and nothing else: an entry whose price or
    size [float] rejects is left out, and a reply without the key (as
    after a failed request) gives an empty side. *)
Theorem parse_orderbook_levels (market : UnifiedMarket)
    (yes_book no_book : PolymarketClient.book) (lvl : OrderbookLevel) :
  let b := PolymarketClient.parse_orderbook market yes_book no_book in
  let parsed entries :=
    exists e, e ∈ default [] entries /\ PolymarketClient.level_of e = Some lvl in
  (lvl ∈ yes_bids b <-> parsed (PolymarketClient.bids yes_book)) /\
  (lvl ∈ yes_asks b <-> parsed (PolymarketClient.asks yes_book)) /\
  (lvl ∈ no_bids b <-> parsed (PolymarketClient.bids no_book)) /\
  (lvl ∈ no_asks b <-> parsed (PolymarketClient.asks no_book)).
Proof.
  cbv zeta. unfold PolymarketClient.parse_orderbook. simpl.
  rewrite !sorted_asc_perm, !sorted_desc_perm, !levels_of_elem. done.
Qed.

(** X26. An ask entry without a "price" key is not skipped: it becomes
    a level at price 0, so the best YES ask of the book is 0 or less. *)
Theorem missing_price_is_zero (market : UnifiedMarket)
    (yes_book no_book : PolymarketClient.book)
    (e : PolymarketClient.entry) (s : Q) :
  e ∈ default [] (PolymarketClient.asks yes_book) ->
  PolymarketClient.e_price e = None ->
  PolymarketClient.py_float (default (PolymarketClient.JNum 0)
                               (PolymarketClient.e_size e)) = Some s ->
  let b := PolymarketClient.parse_orderbook market yes_book no_book in
  {| price := 0; size := s |} ∈ yes_asks b /\
  exists ask, best_yes_ask b = Some ask /\ ask <= 0.
Proof.
  intros He Hprice Hsize. cbv zeta.
  unfold best_yes_ask, PolymarketClient.parse_orderbook. simpl.
  assert (Hin : {| price := 0; size := s |}
                ∈ PolymarketClient.levels_of
                    (default [] (PolymarketClient.asks yes_book))).
  { apply levels_of_elem. exists e. split; [done|].
    unfold PolymarketClient.level_of. rewrite Hprice, Hsize. done. }
  split; [by rewrite sorted_asc_perm|].
  pose proof (first_price_asc (PolymarketClient.levels_of
                (default [] (PolymarketClient.asks yes_book)))) as Hfirst.
  destruct (first_price _) as [ask|].
  - exists ask. split; [done|]. destruct Hfirst as [_ Hmin].
    apply (Hmin _ Hin).
  - rewrite Hfirst in Hin. by apply elem_of_nil in Hin.
Qed.

End ClientBooks.

(** ** One polling cycle *)

Section PollCycle.

Import ArbitrageCalculator ArbitrageBot.
Local Open Scope Q_scope.

Variable key : MarketPair -> string.

Abbreviation store := (fun (orderbooks : gmap string Orderbook)
                           (pr : MarketPair * fetched) =>
  let '(this_pair, result) := pr in
  match result with
  | Book b => <[key this_pair := b]> orderbooks
  | NoBook | Failed => orderbooks
  end).

Lemma collect_from (pairs : list MarketPair) (results : list fetched)
    (m : gmap string Orderbook) (k : string) (b : Orderbook) :
  foldl store m (zip pairs results) !! k = Some b ->
  m !! k = Some b \/
  exists i pair, pairs !! i = Some pair /\ key pair = k /\
                 results !! i = Some (Book b).
Proof.
  revert results m. induction pairs as [|pair pairs IH]; intros results m; simpl.
  - by left.
  - destruct results as [|r results]; simpl; [by left|].
    intros Hk. apply IH in Hk as [Hk|(i & pair' & Hp & Hkey & Hr)].
    + destruct r as [b'| |]; [|by left..].
      destruct (decide (key pair = k)) as [<-|Hne].
      * rewrite lookup_insert_eq in Hk. injection Hk as ->.
        right. by exists 0%nat, pair.
      * rewrite lookup_insert_ne in Hk by done. by left.
    + right. by exists (S i), pair'.
Qed.

Lemma collect_absent (pairs : list MarketPair) (results : list fetched)
    (m : gmap string Orderbook) (k : string) :
  k ∉ map key pairs -> foldl store m (zip pairs results) !! k = m !! k.
Proof.
  intros Hk.
  destruct (foldl store m (zip pairs results) !! k) as [b|] eqn:E.
  - apply collect_from in E as [E|(i & pair & Hp & Hkey & _)]; [done|].
    destruct Hk. subst k. apply list_elem_of_In, in_map, list_elem_of_In.
    by eapply list_elem_of_lookup_2.
  - revert results m E. induction pairs as [|pair pairs IH]; intros results m; simpl.
    + done.
    + destruct results as [|r results]; simpl; [done|].
      intros E. apply IH in E.
      * destruct r as [b'| |]; [|done..].
        rewrite lookup_insert_ne in E; [done|].
        intros Heq. apply Hk. rewrite <- Heq. simpl. by left.
      * intros Hin. apply Hk. simpl. by right.
Qed.

Lemma collect_lookup (pairs : list MarketPair) (results : list fetched)
    (m : gmap string Orderbook) (i : nat) (pair : MarketPair) :
  NoDup (map key pairs) ->
  pairs !! i = Some pair ->
  foldl store m (zip pairs results) !! key pair
  = match results !! i with
    | Some (Book b) => Some b
    | _ => m !! key pair
    end.
Proof.
  revert results m i. induction pairs as [|p pairs IH]; intros results m i Hnd Hi.
  - done.
  - simpl in Hnd. apply NoDup_cons in Hnd as [Hfresh Hnd].
    destruct i as [|i]; simpl in Hi.
    + injection Hi as ->. destruct results as [|r results]; simpl; [done|].
      rewrite collect_absent by done.
      destruct r as [b| |]; [|done..]. by rewrite lookup_insert_eq.
    + destruct results as [|r results]; simpl.
      { done. }
      rewrite (IH results _ i Hnd Hi).
      destruct (results !! i) as [[b| |]|]; try done;
        (destruct r as [b'| |]; [|done..]);
        (rewrite lookup_insert_ne; [done|]);
        intros Heq; apply Hfresh; rewrite Heq;
        apply list_elem_of_In, in_map, list_elem_of_In;
        by eapply list_elem_of_lookup_2.
Qed.

(** X27. The dict that a polling cycle fills holds a book under a
    market id only if the request for a pair with that id returned it;
    and when the pairs have different ids, the id of each pair leads to the
    book fetched for that pair, or to nothing if the request failed or
    returned no book. *)
Theorem collect_orderbooks_lookup (pairs : list MarketPair) (results : list fetched) :
  (forall k b,
     collect_orderbooks key pairs results !! k = Some b ->
     exists i pair, pairs !! i = Some pair /\ key pair = k /\
                    results !! i = Some (Book b)) /\
  (NoDup (map key pairs) ->
   forall i pair, pairs !! i = Some pair ->
     collect_orderbooks key pairs results !! key pair
     = match results !! i with
       | Some (Book b) => Some b
       | _ => None
       end).
Proof.
  unfold collect_orderbooks. split.
  - intros k b Hk. by apply collect_from in Hk as [Hk|Hk].
  - intros Hnd i pair Hi. by rewrite (collect_lookup _ _ _ i pair Hnd Hi).
Qed.

End PollCycle.

Section PollCycleOpportunities.

Import ArbitrageCalculator ArbitrageBot.
Local Open Scope Q_scope.

Variable calculator : ArbitrageCalculator.t.

(** X28. In a cycle whose pairs have different market ids on either
    venue, the opportunities reported are exactly those that
    [calculate_opportunity] gives for a pair and the two books fetched
    for that very pair; a pair with a failed or empty fetch on either
    venue reports nothing. *)
Theorem cycle_opportunities (pairs : list MarketPair)
    (kalshi_results poly_results : list fetched) (o : ArbitrageOpportunity) :
  NoDup (map (fun p => market_id (kalshi_market p)) pairs) ->
  NoDup (map (fun p => market_id (poly_market p)) pairs) ->
  o ∈ opportunities_of_cycle calculator pairs kalshi_results poly_results <->
  exists i pair kalshi_book poly_book,
    pairs !! i = Some pair /\
    kalshi_results !! i = Some (Book kalshi_book) /\
    poly_results !! i = Some (Book poly_book) /\
    calculate_opportunity calculator pair kalshi_book poly_book = Some o.
Proof.
  intros Hk Hp. unfold opportunities_of_cycle, find_all_opportunities.
  rewrite sorted_desc_perm, collect_opportunities. simpl.
  rewrite list_elem_of_omap. split.
  - intros (pair & Hin & Ho). apply list_elem_of_lookup in Hin as [i Hi].
    unfold opportunity_of_pair, collect_orderbooks in Ho.
    rewrite (collect_lookup _ _ _ _ i pair Hk Hi) in Ho.
    rewrite (collect_lookup _ _ _ _ i pair Hp Hi) in Ho.
    rewrite !lookup_empty in Ho.
    destruct (kalshi_results !! i) as [[kb| |]|] eqn:Hkr; try done.
    destruct (poly_results !! i) as [[pb| |]|] eqn:Hpr; try done.
    by exists i, pair, kb, pb.
  - intros (i & pair & kb & pb & Hi & Hkr & Hpr & Ho).
    exists pair. split; [by eapply list_elem_of_lookup_2|].
    unfold opportunity_of_pair, collect_orderbooks.
    rewrite (collect_lookup _ _ _ _ i pair Hk Hi).
    rewrite (collect_lookup _ _ _ _ i pair Hp Hi).
    by rewrite Hkr, Hpr.
Qed.

End PollCycleOpportunities.

(** ** The walk on the scenarios, continued *)

Section WalkMoreScenarios.

Import ArbitrageCalculator Scenarios BookScenarios.
Local Open Scope Q_scope.

Lemma walk_first_level_witness :
  0 < size (Scenarios.level 0.48 20) /\
  exists rest,
    _walk_orderbook Scenarios.calculator KALSHI POLYMARKET
      Scenarios.scenario_B_yes Scenarios.scenario_B_no
    = emitted_level KALSHI POLYMARKET 0.48 0.50 (py_min 20 40) :: rest.
Proof.
  split; [unfold Qlt; simpl; lia|].
  apply (walk_first_level Scenarios.calculator KALSHI POLYMARKET
           (Scenarios.level 0.48 20) (Scenarios.level 0.50 40)
           [Scenarios.level 0.50 30] []).
  - unfold Qlt; simpl; lia.
  - unfold Qlt; simpl; lia.
  - unfold Qle; simpl; lia.
Defined.

Lemma walk_threshold_prefix_witness :
  min_profit_threshold loose_calculator <= min_profit_threshold calculator /\
  _walk_orderbook calculator KALSHI POLYMARKET deeper_yes scenario_B_no
  `prefix_of`
  _walk_orderbook loose_calculator KALSHI POLYMARKET deeper_yes scenario_B_no.
Proof.
  assert (Hlow : min_profit_threshold loose_calculator
                 <= min_profit_threshold calculator).
  { unfold Qle; simpl; lia. }
  split; [exact Hlow|].
  exact (walk_threshold_prefix loose_calculator calculator KALSHI POLYMARKET
           Hlow deeper_yes scenario_B_no).
Defined.

Lemma walk_threshold_filter_witness :
  min_profit_threshold loose_calculator <= min_profit_threshold calculator /\
  sorted_by_price deeper_yes /\
  sorted_by_price scenario_B_no /\
  length (_walk_orderbook loose_calculator KALSHI POLYMARKET
            deeper_yes scenario_B_no) = 2%nat /\
  _walk_orderbook calculator KALSHI POLYMARKET deeper_yes scenario_B_no
  = List.filter
      (fun l => Qle_bool (min_profit_threshold calculator) (profit_percentage l))
      (_walk_orderbook loose_calculator KALSHI POLYMARKET
         deeper_yes scenario_B_no).
Proof.
  assert (Hlow : min_profit_threshold loose_calculator
                 <= min_profit_threshold calculator).
  { unfold Qle; simpl; lia. }
  assert (Hy : sorted_by_price deeper_yes).
  { repeat constructor; unfold Qle; simpl; lia. }
  assert (Hn : sorted_by_price scenario_B_no).
  { repeat constructor. }
  split; [exact Hlow|]. split; [exact Hy|]. split; [exact Hn|].
  split; [reflexivity|].
  exact (walk_threshold_filter loose_calculator calculator KALSHI POLYMARKET
           Hlow deeper_yes scenario_B_no Hy Hn).
Defined.

End WalkMoreScenarios.

(** ** Opportunities and fees on the examples *)

Section OpportunityScenarios.

Import ArbitrageCalculator FeeCalculator Scenarios BookScenarios.
Local Open Scope Q_scope.

Lemma calculate_opportunity_ranked_witness :
  exists o,
    calculate_opportunity calculator fed_pair kalshi_book poly_book = Some o /\
    profit_descending (opp_levels o) /\
    length (opp_levels o) = 1%nat /\
    Forall (fun l =>
              min_profit_threshold calculator <= profit_percentage l /\
              0 < quantity l /\
              buy_yes_platform l <> buy_no_platform l)
      (opp_levels o).
Proof.
  eexists. split; [reflexivity|].
  destruct (calculate_opportunity_ranked calculator fed_pair kalshi_book poly_book
              _ eq_refl) as (Hdesc & _ & Hall).
  split; [exact Hdesc|]. split; [reflexivity|exact Hall].
Defined.

Lemma best_level_is_best_witness :
  exists o best,
    calculate_opportunity calculator fed_pair kalshi_book poly_book = Some o /\
    best_level o = Some best /\
    best_profit_percentage o = profit_percentage best /\
    min_profit_threshold calculator <= best_profit_percentage o.
Proof.
  eexists.
  destruct (best_level_is_best calculator fed_pair kalshi_book poly_book
              _ eq_refl) as (best & Hbest & _ & Hprofit & Hth & _).
  exists best. split; [reflexivity|]. split; [exact Hbest|].
  split; [exact Hprofit|exact Hth].
Defined.

Lemma kalshi_taker_fee_monotone_witness :
  kalshi_taker_fee 20 0.48 <= kalshi_taker_fee 21 0.48.
Proof.
  apply (kalshi_taker_fee_monotone 20 21 0.48).
  - lia.
  - split; unfold Qle; simpl; lia.
Defined.

Lemma estimate_total_fees_cross_venue_witness :
  (estimate_total_fees KALSHI 0.48 POLYMARKET 0.50 20).2 == 0 /\
  (estimate_total_fees KALSHI 0.48 POLYMARKET 0.50 20).1
  == kalshi_taker_fee 20 0.48.
Proof.
  apply (estimate_total_fees_cross_venue KALSHI 0.48 POLYMARKET 0.50 20).
  discriminate.
Defined.

End OpportunityScenarios.

(** ** The matcher and the clients on the examples *)

Section MatcherMoreScenarios.

Import FuzzyMatcher Examples Scenarios BookScenarios.
Local Open Scope Q_scope.

Abbreviation scenario_D_matches :=
  (@find_matches ascii_str scenario_D_scores stable_numpy matcher
     scenario_D_kalshi scenario_D_poly).

Lemma find_matches_sorted_witness :
  @argsort_spec stable_numpy /\
  exists pairs,
    scenario_D_matches = Returned pairs /\
    StronglySorted (fun a b => match_score b <= match_score a) pairs.
Proof.
  split; [exact stable_argsort_spec|].
  exact (@find_matches_sorted ascii_str scenario_D_scores stable_numpy matcher
           scenario_D_kalshi scenario_D_poly stable_argsort_spec).
Defined.

Lemma find_matches_claims_best_witness :
  @argsort_spec stable_numpy /\
  inject_Z (threshold matcher) <= 85 /\
  exists pairs p,
    scenario_D_matches = Returned pairs /\
    p ∈ pairs /\
    scenario_D_poly !! 0%nat = Some (poly_market p) /\
    85 <= match_score p.
Proof.
  split; [exact stable_argsort_spec|].
  assert (Hth : inject_Z (threshold matcher) <= 85).
  { unfold Qle; simpl; lia. }
  split; [exact Hth|].
  exact (@find_matches_claims_best ascii_str scenario_D_scores stable_numpy matcher
           scenario_D_kalshi scenario_D_poly 1%nat 0%nat
           (market KALSHI "K2" "Fed cuts rates by March?") 85
           stable_argsort_spec eq_refl eq_refl eq_refl Hth).
Defined.

Lemma find_matches_none_witness :
  @argsort_spec stable_numpy /\
  (scenario_D_matches = Returned [] <->
   forall k s, k ∈ scenario_D_kalshi ->
     @np_max (@score_row ascii_str scenario_D_scores k scenario_D_poly) = Returned s ->
     s < inject_Z (threshold matcher)).
Proof.
  split; [exact stable_argsort_spec|].
  apply (@find_matches_none ascii_str scenario_D_scores stable_numpy matcher
           scenario_D_kalshi scenario_D_poly stable_argsort_spec).
  - discriminate.
  - discriminate.
Defined.

Lemma find_matches_count_witness :
  @argsort_spec stable_numpy /\
  exists pairs,
    scenario_D_matches = Returned pairs /\
    (length pairs <= length scenario_D_kalshi)%nat /\
    (length pairs <= length scenario_D_poly)%nat.
Proof.
  split; [exact stable_argsort_spec|].
  exact (@find_matches_count ascii_str scenario_D_scores stable_numpy matcher
           scenario_D_kalshi scenario_D_poly stable_argsort_spec).
Defined.

Lemma pair_id_injective_witness :
  has_char ":" (market_id (kalshi_market fed_pair)) = false /\
  (pair_id fed_pair = pair_id fed_pair ->
   market_id (kalshi_market fed_pair) = market_id (kalshi_market fed_pair) /\
   market_id (poly_market fed_pair) = market_id (poly_market fed_pair)).
Proof.
  split; [reflexivity|].
  exact (pair_id_injective fed_pair fed_pair eq_refl eq_refl).
Defined.

End MatcherMoreScenarios.

Section ClientScenarios.

Import ArbitrageCalculator ArbitrageBot Scenarios BookScenarios.
Local Open Scope Q_scope.

Lemma missing_price_is_zero_witness :
  priceless_ask ∈ default [] (PolymarketClient.asks yes_reply) /\
  let b := PolymarketClient.parse_orderbook
             (market POLYMARKET "P1" "Fed rate cut - March") yes_reply no_reply in
  {| price := 0; size := 25 |} ∈ yes_asks b /\
  exists ask, best_yes_ask b = Some ask /\ ask <= 0.
Proof.
  assert (Hin : priceless_ask ∈ default [] (PolymarketClient.asks yes_reply)).
  { simpl. apply list_elem_of_further, list_elem_of_here. }
  split; [exact Hin|].
  exact (@missing_price_is_zero reply_floats
           (market POLYMARKET "P1" "Fed rate cut - March") yes_reply no_reply
           priceless_ask 25 Hin eq_refl eq_refl).
Defined.

Lemma cycle_opportunities_witness :
  NoDup (map (fun p => market_id (kalshi_market p)) [fed_pair; other_pair]) /\
  NoDup (map (fun p => market_id (poly_market p)) [fed_pair; other_pair]) /\
  exists o,
    calculate_opportunity calculator fed_pair kalshi_book poly_book = Some o /\
    o ∈ opportunities_of_cycle calculator [fed_pair; other_pair]
          [Book kalshi_book; Failed] [Book poly_book; Book poly_book].
Proof.
  assert (Hk : NoDup (map (fun p => market_id (kalshi_market p))
                        [fed_pair; other_pair])).
  { simpl. apply NoDup_cons. split; [|apply NoDup_singleton].
    intros Hin. apply list_elem_of_singleton in Hin. discriminate. }
  assert (Hp : NoDup (map (fun p => market_id (poly_market p))
                        [fed_pair; other_pair])).
  { simpl. apply NoDup_cons. split; [|apply NoDup_singleton].
    intros Hin. apply list_elem_of_singleton in Hin. discriminate. }
  split; [exact Hk|]. split; [exact Hp|].
  eexists. split; [reflexivity|].
  apply (cycle_opportunities calculator [fed_pair; other_pair]
           [Book kalshi_book; Failed] [Book poly_book; Book poly_book] _ Hk Hp).
  exists 0%nat, fed_pair, kalshi_book, poly_book.
  repeat split; reflexivity.
Defined.

End ClientScenarios.

(** * Rounding, NaN and validation *)

(** ** The float operations *)

Section Binary64Facts.

Import SpecFloat Binary64.

Lemma finite_not_nan (x : float) : is_finite x = true -> is_nan x = false.
Proof. by destruct x. Qed.

(** [x - x] is [+0] for a finite [x]. *)
Lemma sub_diag (x : float) : is_finite x = true -> sub x x = zero.
Proof.
  destruct x as [[]| | |s m e]; try done.
  intros _. unfold sub, SFsub. by rewrite Z.sub_diag.
Qed.

Lemma shr_1_nonneg (mrs : shr_record) :
  (0 <= shr_m mrs)%Z -> (0 <= shr_m (shr_1 mrs))%Z.
Proof. destruct mrs as [[|[p|p|]|p] r s]; simpl; lia. Qed.

Lemma iter_shr_1_nonneg (p : positive) (mrs : shr_record) :
  (0 <= shr_m mrs)%Z -> (0 <= shr_m (iter_pos shr_1 p mrs))%Z.
Proof.
  revert mrs. induction p as [p IH|p IH|]; intros mrs Hm; simpl.
  - by apply IH, IH, shr_1_nonneg.
  - by apply IH, IH.
  - by apply shr_1_nonneg.
Qed.

Lemma shr_fexp_nonneg (m e : Z) (l : location) :
  (0 <= m)%Z -> (0 <= shr_m (shr_fexp prec emax m e l).1)%Z.
Proof.
  intros Hm. unfold shr_fexp, shr.
  assert (Hrec : (0 <= shr_m (shr_record_of_loc m l))%Z).
  { by destruct l as [|[]]. }
  destruct (fexp prec emax (Zdigits2 m + e) - e)%Z; simpl; try done.
  by apply iter_shr_1_nonneg.
Qed.

Lemma round_nearest_even_nonneg (m : Z) (l : location) :
  (0 <= m)%Z -> (0 <= round_nearest_even m l)%Z.
Proof. intros Hm. destruct l as [|[]]; simpl; try done; [case_match|]; lia. Qed.

(** Rounding a magnitude never gives NaN. *)
Lemma binary_round_aux_not_nan (s : bool) (m e : Z) (l : location) :
  (0 <= m)%Z -> is_nan (binary_round_aux prec emax s m e l) = false.
Proof.
  intros Hm. unfold binary_round_aux.
  pose proof (shr_fexp_nonneg m e l Hm) as H1.
  destruct (shr_fexp prec emax m e l) as [mrs1 e1]. simpl in H1.
  pose proof (shr_fexp_nonneg _ e1 loc_Exact
                (round_nearest_even_nonneg _ (loc_of_shr_record mrs1) H1)) as H2.
  destruct (shr_fexp prec emax _ e1 loc_Exact) as [mrs2 e2]. simpl in H2.
  destruct (shr_m mrs2); [done| |lia].
  by case_match.
Qed.

Lemma binary_normalize_not_nan (m e : Z) (szero : bool) :
  is_nan (binary_normalize prec emax m e szero) = false.
Proof.
  destruct m as [|p|p]; simpl; [done| |];
    unfold binary_round; case_match; by apply binary_round_aux_not_nan.
Qed.

(** Taking a finite number from a number gives a number. *)
Lemma sub_not_nan (a b : float) :
  is_nan a = false -> is_finite b = true -> is_nan (sub a b) = false.
Proof.
  destruct a as [sa|sa| |sa ma ea], b as [sb|sb| |sb mb eb]; try done; intros _ _.
  - by destruct sa, sb.
  - unfold sub, SFsub. apply binary_normalize_not_nan.
Qed.

(** A number that is not above zero is at or below it. *)
Lemma not_above_zero (x : float) :
  is_nan x = false -> ltb zero x = false -> leb x zero = true.
Proof. by destruct x as [s|[]| |[] m e]. Qed.

(** A number above zero and below another one is finite. *)
Lemma below_is_finite (x y : float) :
  ltb zero x = true -> ltb x y = true -> is_finite x = true.
Proof. destruct x as [s|[]| |s m e]; try done. by destruct y as [?|[]| |[] ? ?]. Qed.

(** So is a number above zero that a finite number is not below. *)
Lemma bounded_is_finite (x y : float) :
  is_nan x = false -> ltb zero x = true -> is_finite y = true ->
  ltb y x = false -> is_finite x = true.
Proof.
  destruct x as [s|[]| |s m e]; try done.
  by destruct y as [?|[]| |[] ? ?].
Qed.

(** In a pass over two heads that are numbers, one of them finite, a head
    is used up, and what remains of either is a number. *)
Lemma float_pass_exhausts_a_head (yq nq : float) :
  (is_nan yq = false /\ is_finite nq = true) \/
  (is_finite yq = true /\ is_nan nq = false) ->
  let qty := py_min yq nq in
  let emit := ltb zero qty in
  let yq' := if emit then sub yq qty else yq in
  let nq' := if emit then sub nq qty else nq in
  (leb yq' zero = true \/ leb nq' zero = true) /\
  is_nan yq' = false /\ is_nan nq' = false.
Proof.
  intros Hheads. cbv zeta.
  assert (Hy : is_nan yq = false) by (destruct Hheads as [[? _]|[? _]]; auto using finite_not_nan).
  assert (Hn : is_nan nq = false) by (destruct Hheads as [[_ ?]|[_ ?]]; auto using finite_not_nan).
  unfold py_min. destruct (ltb nq yq) eqn:Hlt.
  - destruct (ltb zero nq) eqn:Hemit.
    + assert (Hfin : is_finite nq = true) by (by eapply below_is_finite).
      rewrite (sub_diag nq Hfin). split; [by right|].
      split; [by apply sub_not_nan|done].
    + split; [right; by apply not_above_zero|done].
  - destruct (ltb zero yq) eqn:Hemit.
    + assert (Hfin : is_finite yq = true).
      { destruct Hheads as [[_ Hnf]|[? _]]; [|done].
        by apply (bounded_is_finite yq nq). }
      rewrite (sub_diag yq Hfin). split; [by left|].
      split; [done|by apply sub_not_nan].
    + split; [left; by apply not_above_zero|done].
Qed.

End Binary64Facts.

(** ** The walk on binary64 *)

Section FloatingWalk.

Import Binary64 Floating Floating.ArbitrageCalculator FloatingStatements.

Variable self : Floating.ArbitrageCalculator.t.
Variables yes_platform no_platform : Platform.

Abbreviation iter := (walk_iter self yes_platform no_platform).
Abbreviation loop := (walk_loop self yes_platform no_platform).
Abbreviation to_go st := (length (yes_rest st) + length (no_rest st))%nat.

(** What one pass does, told on the parts of the ladders not yet passed. *)
Lemma float_iter_Some (st st' : walk_state) :
  iter st = Some st' ->
  exists yp yq ys np nq ns,
    yes_rest st = (yp, yq) :: ys /\
    no_rest st = (np, nq) :: ns /\
    let qty := py_min yq nq in
    let emit := ltb zero qty in
    let yq' := if emit then sub yq qty else yq in
    let nq' := if emit then sub nq qty else nq in
    yes_rest st' = (if leb yq' zero then ys else (yp, yq') :: ys) /\
    no_rest st' = (if leb nq' zero then ns else (np, nq') :: ns).
Proof.
  unfold walk_iter, yes_rest, no_rest.
  destruct st as [lv yr nr yi ni]; simpl.
  destruct (yr !! yi) as [[yp yq]|] eqn:Hy; [|discriminate].
  destruct (nr !! ni) as [[np nq]|] eqn:Hn; [|discriminate].
  destruct (ltb _ (min_profit_threshold self)); [discriminate|].
  intros Hst'.
  exists yp, yq, (drop (S yi) yr), np, nq, (drop (S ni) nr).
  split; [by apply drop_S|]. split; [by apply drop_S|].
  pose proof (lookup_lt_Some _ _ _ Hy) as Hyi.
  pose proof (lookup_lt_Some _ _ _ Hn) as Hni.
  cbv zeta.
  destruct (ltb zero (py_min yq nq)) eqn:Hemit; simpl in Hst'.
  - unfold exhausted in Hst'.
    rewrite !list_lookup_insert_eq in Hst' by assumption.
    injection Hst' as <-. simpl.
    split.
    + destruct (leb (sub yq (py_min yq nq)) zero).
      * by rewrite drop_insert_lt by lia.
      * rewrite (drop_S _ (yp, sub yq (py_min yq nq))).
        -- by rewrite drop_insert_lt by lia.
        -- by apply list_lookup_insert_eq.
    + destruct (leb (sub nq (py_min yq nq)) zero).
      * by rewrite drop_insert_lt by lia.
      * rewrite (drop_S _ (np, sub nq (py_min yq nq))).
        -- by rewrite drop_insert_lt by lia.
        -- by apply list_lookup_insert_eq.
  - unfold exhausted in Hst'. rewrite Hy, Hn in Hst'.
    injection Hst' as <-. simpl.
    split.
    + destruct (leb yq zero); [done|]. by apply drop_S.
    + destruct (leb nq zero); [done|]. by apply drop_S.
Qed.

Lemma finite_sizes_behind (rest : list (float * float)) :
  finite_sizes rest -> finite_behind_head rest.
Proof.
  destruct 1 as [|r behind Hr Hbehind]; [done|].
  split; [by apply finite_not_nan|done].
Qed.

(** A pass over ladders of finite sizes moves an index forward and leaves
    ladders of finite sizes. *)
Lemma float_iter_progress (st st' : walk_state) :
  walk_sizes st -> iter st = Some st' ->
  walk_sizes st' /\ (to_go st' < to_go st)%nat.
Proof.
  intros Hsizes Hit.
  destruct (float_iter_Some _ _ Hit)
    as (yp & yq & ys & np & nq & ns & Hy & Hn & Hstep).
  cbv zeta in Hstep. destruct Hstep as [Hy' Hn'].
  unfold walk_sizes in *. rewrite Hy, Hn in Hsizes. rewrite Hy, Hn, Hy', Hn'.
  assert (Hys : finite_sizes ys).
  { destruct Hsizes as [[[_ ?] _]|[Hall _]]; [done|].
    by apply Forall_cons in Hall as [_ ?]. }
  assert (Hns : finite_sizes ns).
  { destruct Hsizes as [[_ Hall]|[_ [_ ?]]]; [|done].
    by apply Forall_cons in Hall as [_ ?]. }
  assert (Hheads : (is_nan yq = false /\ is_finite nq = true) \/
                   (is_finite yq = true /\ is_nan nq = false)).
  { destruct Hsizes as [[[? _] Hall]|[Hall [? _]]];
      apply Forall_cons in Hall as [? _]; auto. }
  destruct (float_pass_exhausts_a_head yq nq Hheads) as (Hused & Hyq' & Hnq').
  cbv zeta in Hused, Hyq', Hnq'.
  destruct (leb (if ltb zero (py_min yq nq) then sub yq (py_min yq nq) else yq) zero)
    eqn:Ey;
    destruct (leb (if ltb zero (py_min yq nq) then sub nq (py_min yq nq) else nq) zero)
      eqn:En; simpl.
  - split; [|lia]. left. split; [by apply finite_sizes_behind|done].
  - split; [|lia]. right. split; [done|]. by split.
  - split; [|lia]. left. split; [by split|done].
  - by destruct Hused.
Qed.

(** Once the loop is left with some fuel, more fuel changes nothing. *)
Lemma float_loop_more_fuel (fuel fuel' : nat) (st : walk_state)
    (out : list ArbitrageLevel) :
  loop fuel st = Some out -> (fuel <= fuel')%nat -> loop fuel' st = Some out.
Proof.
  revert fuel' st. induction fuel as [|fuel IH]; intros fuel' st; simpl.
  - destruct (iter st) eqn:Hit; [discriminate|].
    intros Hout _. destruct fuel'; simpl; by rewrite Hit.
  - destruct (iter st) as [st'|] eqn:Hit.
    + intros Hout Hle. destruct fuel' as [|fuel']; [lia|]. simpl. rewrite Hit.
      apply IH; [done|lia].
    + intros Hout _. destruct fuel'; simpl; by rewrite Hit.
Qed.

Lemma float_loop_halts (n : nat) (st : walk_state) :
  walk_sizes st -> (to_go st <= n)%nat -> exists out, loop n st = Some out.
Proof.
  revert st. induction n as [|n IH]; intros st Hsizes Hgo.
  - simpl. destruct (iter st) as [st'|] eqn:Hit; [|by eexists].
    destruct (float_iter_progress _ _ Hsizes Hit) as [_ Hlt]. lia.
  - simpl. destruct (iter st) as [st'|] eqn:Hit; [|by eexists].
    destruct (float_iter_progress _ _ Hsizes Hit) as [Hsizes' Hlt].
    apply IH; [done|lia].
Qed.

(** A pass that changes nothing is repeated for ever. *)
Lemma float_loop_stalls (st : walk_state) :
  iter st = Some st -> forall fuel, loop fuel st = None.
Proof.
  intros Hit fuel. induction fuel as [|fuel IH]; simpl; by rewrite Hit.
Qed.

(** X29. On ladders whose sizes are all finite floats (neither NaN nor
    an infinity), whatever their prices, their order and the threshold,
    the loop is left within [len(yes_asks) + len(no_asks)] passes and the
    call returns. *)
Theorem float_walk_terminates (yes_asks no_asks : list OrderbookLevel) :
  Forall (fun lvl => is_finite (size lvl) = true) yes_asks ->
  Forall (fun lvl => is_finite (size lvl) = true) no_asks ->
  exists out,
    forall fuel, (length yes_asks + length no_asks <= fuel)%nat ->
      _walk_orderbook self yes_platform no_platform fuel yes_asks no_asks
      = Some out.
Proof.
  intros Hy Hn. unfold _walk_orderbook.
  set (st := walk_init yes_asks no_asks).
  assert (Hfin : forall asks : list OrderbookLevel,
            Forall (fun lvl => is_finite (size lvl) = true) asks ->
            finite_sizes (map (fun lvl => (price lvl, size lvl)) asks)).
  { intros asks Hall. unfold finite_sizes. by rewrite Forall_map. }
  assert (Hsizes : walk_sizes st).
  { left. subst st. unfold yes_rest, no_rest, walk_init.
    cbn [yes_idx no_idx yes_remaining no_remaining]. rewrite !drop_0.
    split; [apply finite_sizes_behind|]; by apply Hfin. }
  assert (Hgo : (to_go st <= length yes_asks + length no_asks)%nat).
  { subst st. unfold yes_rest, no_rest, walk_init.
    cbn [yes_idx no_idx yes_remaining no_remaining]. rewrite !drop_0, !length_map. lia. }
  destruct (float_loop_halts _ st Hsizes Hgo) as [out Hout].
  exists out. intros fuel Hfuel. by eapply float_loop_more_fuel.
Qed.

End FloatingWalk.

(** ** The walk and the fee on binary64: what rounding and NaN do *)

Section FloatingFindings.

Import Binary64 Floating Floating.ArbitrageCalculator FloatScenarios.


(** C6, at the input (100, 0.5).  The product
    [0.07 * 100 * 0.5 * 0.5 * 100] is 175.00000000000003 in floats, so
    [math.ceil] gives 176 cents and the fee returned is 1.76, where the
    formula of the docstring gives ceil(175) cents, 1.75; at (4, 0.5) the
    fee returned is 0.08 where the formula gives 0.07.  And at (20, 0.5)
    the fee returned, 0.35, is below the unrounded product
    0.35000000000000003 of the same floats. *)
Theorem kalshi_taker_fee_overcharges :
  Floating.FeeCalculator.kalshi_taker_fee 100 (decimal 1 2)
  = Returned (decimal 176 100) /\
  (FeeCalculator.reference_fee 0.07 100 0.5 == 1.75)%Q /\
  Floating.FeeCalculator.kalshi_taker_fee 4 (decimal 1 2)
  = Returned (decimal 8 100) /\
  (FeeCalculator.reference_fee 0.07 4 0.5 == 0.07)%Q /\
  exists fee unrounded,
    Floating.FeeCalculator.kalshi_taker_fee 20 (decimal 1 2) = Returned fee /\
    Floating.FeeCalculator.unrounded_fee 20 (decimal 1 2) = Returned unrounded /\
    fee = decimal 35 100 /\
    ltb fee unrounded = true.
Proof.
  split; [vm_compute; reflexivity|].
  split; [vm_compute; reflexivity|].
  split; [vm_compute; reflexivity|].
  split; [vm_compute; reflexivity|].
  eexists. eexists. split; [vm_compute; reflexivity|].
  split; [vm_compute; reflexivity|]. split; vm_compute; reflexivity.
Qed.

(** C10, at a YES level whose size is NaN.  [min(nan, 5.0)] is NaN, so
    neither [qty > 0] nor any of the two [<= 0] tests holds: the pass
    leaves the state as it found it, and no number of passes leaves the
    loop. *)
Theorem walk_never_ends_on_nan_size :
  walk_iter calculator KALSHI POLYMARKET (walk_init nan_yes nan_no)
  = Some (walk_init nan_yes nan_no) /\
  forall fuel,
    _walk_orderbook calculator KALSHI POLYMARKET fuel nan_yes nan_no = None.
Proof.
  assert (Hit : walk_iter calculator KALSHI POLYMARKET (walk_init nan_yes nan_no)
                = Some (walk_init nan_yes nan_no)).
  { vm_compute. reflexivity. }
  split; [exact Hit|].
  intros fuel. unfold _walk_orderbook. by apply float_loop_stalls.
Qed.

(** Against C3 as it is worded, on floats: a contract count of zero or
    below, a negative size and a price outside [0, 1] all produce a
    result, and nothing is signalled.  A negative price even yields a
    level, with a profit of a full dollar per contract. *)
Lemma invalid_input_is_not_signalled :
  Floating.FeeCalculator.kalshi_taker_fee 0 (decimal 1 2) = Returned zero /\
  Floating.FeeCalculator.kalshi_taker_fee (-3) (decimal 1 2)
  = Returned (decimal (-5) 100) /\
  _walk_orderbook calculator KALSHI POLYMARKET 2
    [level (decimal 40 100) (decimal (-5) 1)] [level (decimal 50 100) (decimal 10 1)]
  = Some [] /\
  _walk_orderbook calculator KALSHI POLYMARKET 2
    [level (decimal 15 10) (decimal 10 1)] [level (decimal 50 100) (decimal 10 1)]
  = Some [] /\
  exists l,
    _walk_orderbook calculator KALSHI POLYMARKET 2
      [level (decimal (-1) 2) (decimal 10 1)] [level (decimal 50 100) (decimal 10 1)]
    = Some [l] /\
    quantity l = decimal 10 1 /\ profit_percentage l = decimal 1 1.
Proof.
  split; [vm_compute; reflexivity|].
  split; [vm_compute; reflexivity|].
  split; [vm_compute; reflexivity|].
  split; [vm_compute; reflexivity|].
  eexists. split; [vm_compute; reflexivity|].
  split; vm_compute; reflexivity.
Qed.

Variable self : Floating.ArbitrageCalculator.t.
Variables yes_platform no_platform : Platform.

(** X30. A pass leaves the state unchanged, and the loop then never
    ends, whenever the remaining quantity of the YES head is NaN, that of
    the NO head is not at or below zero, and the combination of the two
    head prices is not below the threshold. *)
Theorem nan_size_stalls (st : walk_state)
    (yes_price yes_qty no_price no_qty : float) :
  yes_remaining st !! yes_idx st = Some (yes_price, yes_qty) ->
  no_remaining st !! no_idx st = Some (no_price, no_qty) ->
  ltb (sub (of_Z 1) (add yes_price no_price)) (min_profit_threshold self) = false ->
  is_nan yes_qty = true ->
  leb no_qty zero = false ->
  walk_iter self yes_platform no_platform st = Some st /\
  forall fuel, walk_loop self yes_platform no_platform fuel st = None.
Proof.
  intros Hy Hn Hth Hnan Hno.
  assert (Hit : walk_iter self yes_platform no_platform st = Some st).
  { unfold walk_iter. rewrite Hy, Hn, Hth.
    destruct yes_qty; try discriminate.
    assert (Hmin : py_min SpecFloat.S754_nan no_qty = SpecFloat.S754_nan).
    { unfold py_min. by destruct no_qty. }
    rewrite Hmin. simpl. unfold exhausted. rewrite Hy, Hn, Hno. simpl.
    by destruct st. }
  split; [exact Hit|]. by apply float_loop_stalls.
Qed.

End FloatingFindings.

(** ** What is not validated, and what a level is cut from *)

Section Unvalidated.

Import ArbitrageCalculator FeeCalculator.
Local Open Scope Q_scope.

(** The level [l] carries the prices of a YES and a NO ask level, for a
    quantity above zero that is no more than the size of either. *)
Abbreviation cut_from yes_asks no_asks := (fun l : ArbitrageLevel =>
  0 < quantity l /\
  exists y n : OrderbookLevel,
    y ∈ yes_asks /\ n ∈ no_asks /\
    buy_yes_price l = price y /\ buy_no_price l = price n /\
    quantity l <= size y /\ quantity l <= size n).

(** Kept by every pass, sorted ladders or not: what remains of a level is
    no more than its size, and every level emitted so far is cut from the
    two ladders. *)
Lemma passes_cut (self : ArbitrageCalculator.t)
    (yes_platform no_platform : Platform)
    (yes_asks no_asks : list OrderbookLevel) (n : nat) (st : walk_state) :
  passes self yes_platform no_platform n (walk_init yes_asks no_asks) st ->
  Forall (rest_from_ladder yes_asks) (yes_rest st) /\
  Forall (rest_from_ladder no_asks) (no_rest st) /\
  Forall (cut_from yes_asks no_asks) (levels st).
Proof.
  intros Hp.
  assert (Hinit : forall asks,
            Forall (rest_from_ladder asks)
              (map (fun lvl => (price lvl, size lvl)) asks)).
  { intros asks. apply Forall_map, Forall_forall. intros lvl Hin.
    exists lvl. simpl. split; [done|]. split; [done|]. lra. }
  eapply (passes_invariant self yes_platform no_platform
            (fun st =>
               Forall (rest_from_ladder yes_asks) (yes_rest st) /\
               Forall (rest_from_ladder no_asks) (no_rest st) /\
               Forall (cut_from yes_asks no_asks) (levels st))); [|exact Hp|].
  - clear Hp. intros s s' (Hyr & Hnr & Hlv) Hit.
    destruct (walk_iter_Some _ _ _ _ _ Hit)
      as (yp & yq & ys & np & nq & ns & Hy & Hn & _ & Hstep).
    cbv zeta in Hstep. destruct Hstep as (-> & -> & -> & _).
    rewrite Hy in Hyr. rewrite Hn in Hnr.
    pose proof (py_min_le_l yq nq) as Hl. pose proof (py_min_le_r yq nq) as Hr.
    destruct (Qltb 0 (py_min yq nq)) eqn:Hemit.
    + apply Qltb_lt in Hemit.
      split; [apply (rest_from_ladder_step _ _ _ yq); [lra|done]|].
      split; [apply (rest_from_ladder_step _ _ _ nq); [lra|done]|].
      apply Forall_app. split; [done|]. constructor; [|constructor].
      apply Forall_cons in Hyr as [(y & Hyin & Hyp & Hys) _].
      apply Forall_cons in Hnr as [(n' & Hnin & Hnp & Hns) _].
      simpl in *. split; [done|].
      exists y, n'. simpl. repeat split; try done; lra.
    + split; [apply (rest_from_ladder_step _ _ _ yq); [lra|done]|].
      split; [apply (rest_from_ladder_step _ _ _ nq); [lra|done]|].
      by rewrite app_nil_r.
  - unfold yes_rest, no_rest, walk_init. simpl. rewrite !drop_0.
    split; [apply Hinit|]. split; [apply Hinit|constructor].
Qed.

Lemma kalshi_taker_fee_nonpositive (contracts : Z) (price : Q) :
  (contracts <= 0)%Z -> 0 <= price <= 1 -> kalshi_taker_fee contracts price <= 0.
Proof.
  intros Hc [Hp0 Hp1]. unfold kalshi_taker_fee, math_ceil, KALSHI_TAKER_COEFFICIENT.
  assert (Hc' : inject_Z contracts <= 0).
  { change 0 with (inject_Z 0). by rewrite <- Zle_Qle. }
  assert (Hpp : 0 <= price * (1 - price)).
  { apply Qmult_le_0_compat; lra. }
  assert (Hx : (7 # 100) * inject_Z contracts * price * (1 - price) * 100 <= 0).
  { assert (Hm : (- inject_Z contracts) * (price * (1 - price)) >= 0).
    { apply Qmult_le_0_compat; lra. }
    lra. }
  apply Qceiling_resp_le in Hx. change (Qceiling 0) with 0%Z in Hx.
  apply Qle_shift_div_r; [reflexivity|].
  rewrite Qmult_0_l. change 0 with (inject_Z 0). by rewrite <- Zle_Qle.
Qed.

Lemma kalshi_taker_fee_of_nothing (price : Q) : kalshi_taker_fee 0 price == 0.
Proof.
  unfold kalshi_taker_fee, math_ceil.
  assert (KALSHI_TAKER_COEFFICIENT * inject_Z 0 * price * (1 - price) * 100 == 0)
    as -> by (change (inject_Z 0) with 0; ring).
  reflexivity.
Qed.

(** C3, as the code has it.  Nothing is validated.  At a price in
    [0, 1] the fee for a contract count of zero is 0 and the fee for a
    negative count (one that a float holds) is at most 0; and the walk
    rejects neither a size nor a price: every level it emits has a
    quantity above zero and carries, unchanged, the prices of a YES and a
    NO ask level neither of whose sizes is zero or below, so a level of
    zero or negative size contributes nothing. *)
Theorem no_input_validation :
  (forall price, 0 <= price <= 1 -> kalshi_taker_fee 0 price == 0) /\
  (forall contracts price,
     (- 2 ^ 53 <= contracts <= 0)%Z -> 0 <= price <= 1 ->
     kalshi_taker_fee contracts price <= 0) /\
  (forall (self : ArbitrageCalculator.t) (yes_platform no_platform : Platform)
          (yes_asks no_asks : list OrderbookLevel),
     Forall (fun l =>
               0 < quantity l /\
               exists y n,
                 y ∈ yes_asks /\ n ∈ no_asks /\
                 ~ size y <= 0 /\ ~ size n <= 0 /\
                 buy_yes_price l = price y /\ buy_no_price l = price n)
       (_walk_orderbook self yes_platform no_platform yes_asks no_asks)).
Proof.
  split; [intros price _; apply kalshi_taker_fee_of_nothing|].
  split.
  { intros contracts price [_ Hc] Hp. by apply kalshi_taker_fee_nonpositive. }
  intros self yp np yes_asks no_asks.
  destruct (walk_exit_state self yp np yes_asks no_asks)
    as (k & fin & _ & Hp & _ & ->).
  destruct (passes_cut self yp np yes_asks no_asks k fin Hp) as (_ & _ & Hcut).
  eapply Forall_impl; [exact Hcut|].
  intros l (Hq & y & n & Hy & Hn & Hyp & Hnp & Hys & Hns).
  split; [done|]. exists y, n. repeat split; try done; lra.
Qed.


End Unvalidated.

(** ** Finite and NaN sizes on the examples *)

Section PerLevelScenario.

Import ArbitrageCalculator Scenarios.
Local Open Scope Q_scope.


End PerLevelScenario.

Section FloatingScenarios.

Import Binary64 Floating Floating.ArbitrageCalculator FloatScenarios.

Lemma float_walk_terminates_witness :
  Forall (fun lvl => is_finite (size lvl) = true) split_yes /\
  Forall (fun lvl => is_finite (size lvl) = true) split_no /\
  exists out,
    forall fuel, (length split_yes + length split_no <= fuel)%nat ->
      _walk_orderbook calculator KALSHI POLYMARKET fuel split_yes split_no
      = Some out.
Proof.
  assert (Hy : Forall (fun lvl => is_finite (size lvl) = true) split_yes).
  { repeat constructor. }
  assert (Hn : Forall (fun lvl => is_finite (size lvl) = true) split_no).
  { repeat constructor. }
  split; [exact Hy|]. split; [exact Hn|].
  exact (float_walk_terminates calculator KALSHI POLYMARKET split_yes split_no Hy Hn).
Defined.

Lemma nan_size_stalls_witness :
  walk_iter calculator KALSHI POLYMARKET (walk_init nan_yes nan_no)
  = Some (walk_init nan_yes nan_no) /\
  forall fuel,
    walk_loop calculator KALSHI POLYMARKET fuel (walk_init nan_yes nan_no) = None.
Proof.
  apply (nan_size_stalls calculator KALSHI POLYMARKET (walk_init nan_yes nan_no)
           (decimal 3 10) nan (decimal 3 10) (decimal 5 1));
    reflexivity.
Defined.

End FloatingScenarios.
